(** * logo_coverter.py: conversion of [logo.png] to [logo.ico]

    A shallow embedding of [src/public/logo_coverter.py] and of the library
    operations it calls, followed by the properties of the conversion.

    The script is thirteen lines of module-level code:
    - four assignments that build [png_path] and [ico_path] with [os.path];
    - a [with Image.open(png_path) as img:] block whose body is the single
      call [img.save(ico_path, format='ICO', sizes=[(256, 256)])];
    - a final [print].

    The file system, the table of open file descriptors and standard
    output are an explicit state, [World]; a Python exception is the
    [Raise] case of [result], and a statement is a function from the world
    to a result and the world it leaves ([Py]).

    What the script calls is embedded from the libraries:
    - [os.path] is CPython's [posixpath] ([os.path] on a POSIX system)
      with [genericpath._splitext], on character strings;
    - the [with] statement follows the context-manager protocol;
    - [Image.open], [Image.__exit__], [Image.save] and the ICO writer
      [IcoImagePlugin._save] are those of the imaging library (PIL), at
      the level of their effects on files and descriptors and of the
      bytes of the ICO container; what identifies, decodes, scales and
      PNG-encodes pixels stays abstract, in a [Codec]. *)

From Stdlib Require Import ZArith Ascii String List Bool Lia.
From stdpp Require Import base option list gmap strings.

Local Open Scope Z_scope.


(* ===================================================================== *)
(** * Python strings *)
(* ===================================================================== *)

Module PyStr.

(** [s.rfind(c)] for a one-character [c]: the highest index of [c] in
    [s], or -1. *)
Fixpoint rfind_from (c : ascii) (s : string) (i last : Z) : Z :=
  match s with
  | EmptyString => last
  | String a s' => rfind_from c s' (i + 1) (if Ascii.eqb a c then i else last)
  end.

Definition rfind (c : ascii) (s : string) : Z := rfind_from c s 0 (-1).

(** [s[:n]] and [s[n:]] for [n >= 0]. *)
Fixpoint take (n : nat) (s : string) : string :=
  match n, s with
  | S n', String a s' => String a (take n' s')
  | _, _ => EmptyString
  end.

Fixpoint drop (n : nat) (s : string) : string :=
  match n, s with
  | S n', String _ s' => drop n' s'
  | _, _ => s
  end.

(** [s.startswith(c)] and [s.endswith(c)] for a one-character [c]. *)
Definition startswith (c : ascii) (s : string) : bool :=
  match s with
  | String a _ => Ascii.eqb a c
  | EmptyString => false
  end.

Fixpoint endswith (c : ascii) (s : string) : bool :=
  match s with
  | EmptyString => false
  | String a EmptyString => Ascii.eqb a c
  | String _ s' => endswith c s'
  end.

(** [s == c * len(s)]. *)
Fixpoint all_char (c : ascii) (s : string) : bool :=
  match s with
  | EmptyString => true
  | String a s' => Ascii.eqb a c && all_char c s'
  end.

(** [c * n]. *)
Fixpoint repeat (c : ascii) (n : nat) : string :=
  match n with
  | O => EmptyString
  | S n' => String c (repeat c n')
  end.

(** [s.rstrip(c)]. *)
Fixpoint rstrip (c : ascii) (s : string) : string :=
  match s with
  | EmptyString => EmptyString
  | String a s' =>
      match rstrip c s' with
      | EmptyString => if Ascii.eqb a c then EmptyString else String a EmptyString
      | r => String a r
      end
  end.

(** [s.split(c)]: the pieces between the occurrences of [c]; never empty. *)
Fixpoint split (c : ascii) (s : string) : list string :=
  match s with
  | EmptyString => [EmptyString]
  | String a s' =>
      if Ascii.eqb a c then EmptyString :: split c s'
      else match split c s' with
           | w :: ws => String a w :: ws
           | [] => [String a EmptyString]
           end
  end.

(** [sep.join(l)]. *)
Fixpoint join (sep : string) (l : list string) : string :=
  match l with
  | [] => EmptyString
  | [w] => w
  | w :: ws => w +:+ sep +:+ join sep ws
  end.

(** The character at index [i], as [s[i:i+1]] gives it. *)
Fixpoint get (i : nat) (s : string) : option ascii :=
  match s, i with
  | EmptyString, _ => None
  | String a _, O => Some a
  | String _ s', S i' => get i' s'
  end.

(** No occurrence of [c] in [s]. *)
Fixpoint free_of (c : ascii) (s : string) : bool :=
  match s with
  | EmptyString => true
  | String a s' => negb (Ascii.eqb a c) && free_of c s'
  end.

End PyStr.

(* ===================================================================== *)
(** * [os.path] (CPython [posixpath], [genericpath]) *)
(* ===================================================================== *)

Module os_path.

Definition sep : ascii := "/"%char.
Definition extsep : ascii := "."%char.

(** [isabs(s)]: [s.startswith(sep)]. *)
Definition isabs (s : string) : bool := PyStr.startswith sep s.

(** [join(a, b)]: one pass of the loop over the further parts. *)
Definition join (a b : string) : string :=
  if PyStr.startswith sep b then b
  else if String.eqb a "" || PyStr.endswith sep a then a +:+ b
  else a +:+ String sep b.

(** [dirname(p)]. *)
Definition dirname (p : string) : string :=
  let i := PyStr.rfind sep p + 1 in
  let head := PyStr.take (Z.to_nat i) p in
  if negb (String.eqb head "") && negb (PyStr.all_char sep head)
  then PyStr.rstrip sep head
  else head.

(** [basename(p)]. *)
Definition basename (p : string) : string :=
  let i := PyStr.rfind sep p + 1 in
  PyStr.drop (Z.to_nat i) p.

(** The [while filenameIndex < dotIndex] loop of [genericpath._splitext]:
    [n] is [dotIndex - filenameIndex]; the result tells whether the loop
    returns from its body, on a character that is not a dot. *)
Fixpoint splitext_loop (p : string) (filenameIndex : nat) (n : nat) : bool :=
  match n with
  | O => false
  | S n' =>
      match PyStr.get filenameIndex p with
      | Some a =>
          if negb (Ascii.eqb a extsep) then true
          else splitext_loop p (S filenameIndex) n'
      | None => true
      end
  end.

(** [splitext(p)], with [altsep = None]. *)
Definition splitext (p : string) : string * string :=
  let sepIndex := PyStr.rfind sep p in
  let dotIndex := PyStr.rfind extsep p in
  if (sepIndex <? dotIndex)%Z
     && splitext_loop p (Z.to_nat (sepIndex + 1))
                      (Z.to_nat (dotIndex - (sepIndex + 1)))
  then (PyStr.take (Z.to_nat dotIndex) p, PyStr.drop (Z.to_nat dotIndex) p)
  else (p, "").

(** The loop over the components in [normpath]; [new_comps] is kept in
    reverse, its last element first. *)
Fixpoint normpath_loop (initial_slashes : nat) (comps new_comps : list string)
  : list string :=
  match comps with
  | [] => new_comps
  | comp :: rest =>
      if String.eqb comp "" || String.eqb comp "." then
        normpath_loop initial_slashes rest new_comps
      else if negb (String.eqb comp "..")
              || ((initial_slashes =? 0)%nat && bool_decide (new_comps = []))
              || match new_comps with
                 | last :: _ => String.eqb last ".."
                 | [] => false
                 end
      then normpath_loop initial_slashes rest (comp :: new_comps)
      else match new_comps with
           | _ :: popped => normpath_loop initial_slashes rest popped
           | [] => normpath_loop initial_slashes rest new_comps
           end
  end.

(** The value of [initial_slashes] in [normpath]: POSIX allows one or
    two initial slashes, and treats three or more as a single one. *)
Definition normpath_initial_slashes (path : string) : nat :=
  if PyStr.startswith sep path then
    if String.prefix "//" path && negb (String.prefix "///" path)
    then 2%nat else 1%nat
  else 0%nat.

(** [normpath(path)]. *)
Definition normpath (path : string) : string :=
  if String.eqb path "" then "."
  else
    let initial_slashes := normpath_initial_slashes path in
    let comps := PyStr.split sep path in
    let new_comps := rev (normpath_loop initial_slashes comps []) in
    let path := PyStr.join "/" new_comps in
    let path := PyStr.repeat sep initial_slashes +:+ path in
    if String.eqb path "" then "." else path.

(** [abspath(path)], the current directory [os.getcwd()] being [cwd]. *)
Definition abspath (cwd path : string) : string :=
  normpath (if isabs path then path else join cwd path).

End os_path.

(* ===================================================================== *)
(** * The script: its paths *)
(* ===================================================================== *)

(** What a run of the script finds: the value of [__file__] and the
    current working directory of the process. *)
Record Launch := {
  script_file : string;   (* __file__ *)
  getcwd : string;        (* os.getcwd() *)
}.

Definition file_name : string := "logo.png".

Definition current_dir (l : Launch) : string :=
  os_path.dirname (os_path.abspath (getcwd l) (script_file l)).

Definition png_path (l : Launch) : string :=
  os_path.join (current_dir l) file_name.

Definition ico_path (l : Launch) : string :=
  os_path.join (current_dir l) (fst (os_path.splitext file_name) +:+ ".ico").


(* ===================================================================== *)
(** * Exceptions, the world, the monad of Python statements *)
(* ===================================================================== *)

Definition bytes := list Byte.byte.

Inductive exn :=
| FileNotFoundError (filename : string)
| PermissionError (filename : string)
| UnidentifiedImageError (filename : string)
| ValueError (msg : string)
| KeyError (key : string)
| OSError (msg : string)
| struct_error (msg : string).

Inductive result (A : Type) :=
| Ok (a : A)
| Raise (e : exn).
Arguments Ok {A} a.
Arguments Raise {A} e.

(** The part of the machine the script acts on.  [files] holds the regular
    files by path; [read_only] the paths that [open(..., "w+b")] refuses;
    [open_fds] the open file descriptors of the process with the path each
    was opened on; [stdout] the characters written to standard output. *)
Record World := {
  files : gmap string bytes;
  read_only : gset string;
  open_fds : gmap nat string;
  stdout : string;
}.

Definition set_files (f : gmap string bytes → gmap string bytes) (w : World) : World :=
  {| files := f (files w); read_only := read_only w;
     open_fds := open_fds w; stdout := stdout w |}.

Definition set_open_fds (f : gmap nat string → gmap nat string) (w : World) : World :=
  {| files := files w; read_only := read_only w;
     open_fds := f (open_fds w); stdout := stdout w |}.

Definition set_stdout (f : string → string) (w : World) : World :=
  {| files := files w; read_only := read_only w;
     open_fds := open_fds w; stdout := f (stdout w) |}.

(** A statement: it runs in a world and ends normally with a value or with
    an exception, in the world it leaves behind. *)
Definition Py (A : Type) : Type := World → result A * World.

Definition ret {A} (a : A) : Py A := fun w => (Ok a, w).

Definition raise {A} (e : exn) : Py A := fun w => (Raise e, w).

Definition bind {A B} (m : Py A) (k : A → Py B) : Py B :=
  fun w =>
    match m w with
    | (Ok a, w1) => k a w1
    | (Raise e, w1) => (Raise e, w1)
    end.

Declare Scope py_scope.
Delimit Scope py_scope with py.
Notation "x <- m ;; k" := (bind m (fun x => k))
  (at level 100, m at next level, right associativity) : py_scope.
Notation "m ;; k" := (bind m (fun _ => k))
  (at level 100, right associativity) : py_scope.

(** [with mgr as x: body], for a context manager whose [__enter__] returns
    the object itself.  [exit_] is its [__exit__]: it always runs once the
    manager has been obtained, and its boolean result tells whether an
    exception of the body is swallowed.  An exception raised while
    evaluating [mgr] leaves the statement before anything is entered. *)
Definition with_as {A} (mgr : Py A) (exit_ : A → World → bool * World)
    (body : A → Py unit) : Py unit :=
  fun w =>
    match mgr w with
    | (Raise e, w1) => (Raise e, w1)
    | (Ok x, w1) =>
        let '(r, w2) := body x w1 in
        let '(swallow, w3) := exit_ x w2 in
        match r with
        | Ok tt => (Ok tt, w3)
        | Raise e => if swallow then (Ok tt, w3) else (Raise e, w3)
        end
    end.

(** ** Built-ins *)

Definition newline : string := String "010"%char "".

(** [print(s)]. *)
Definition print (s : string) : Py unit :=
  fun w => (Ok tt, set_stdout (fun out => out +:+ s +:+ newline) w).

(** A file object. *)
Record file := { fileno : nat; name : string }.

(** [builtins.open(filename, "rb")]: the file must exist; the descriptor
    is one that is not in use. *)
Definition open_rb (filename : string) : Py file :=
  fun w =>
    match files w !! filename with
    | None => (Raise (FileNotFoundError filename), w)
    | Some _ =>
        let fd := fresh (dom (open_fds w)) in
        (Ok {| fileno := fd; name := filename |},
         set_open_fds <[fd := filename]> w)
    end.

(** [builtins.open(filename, "w+b")]: refused on a path that is not
    writable; otherwise the file is created, or truncated to zero length. *)
Definition open_wb (filename : string) : Py file :=
  fun w =>
    if bool_decide (filename ∈ read_only w) then (Raise (PermissionError filename), w)
    else
      let fd := fresh (dom (open_fds w)) in
      (Ok {| fileno := fd; name := filename |},
       set_files <[filename := []]> (set_open_fds <[fd := filename]> w)).

(** [fp.close()]; closing twice is allowed. *)
Definition close (fp : file) : World → World :=
  set_open_fds (delete (fileno fp)).

(** All the bytes readable through an open file object. *)
Definition read_all (fp : file) (w : World) : result bytes :=
  match open_fds w !! fileno fp with
  | None => Raise (ValueError "I/O operation on closed file")
  | Some path =>
      match files w !! path with
      | Some data => Ok data
      | None => (* no step of a run removes a file that is open *)
          Raise (OSError "file vanished")
      end
  end.

(** The bytes written through [fp] replace the content of its file. *)
Definition write_all (fp : file) (data : bytes) : World → World :=
  set_files <[name fp := data]>.

(** [os.remove(filename)]. *)
Definition os_remove (filename : string) : World → World :=
  set_files (delete filename).

(* ===================================================================== *)
(** * The imaging library (PIL): [Image.open], [Image.save], the ICO writer *)
(* ===================================================================== *)

(** The pixel codecs stay abstract.
    - [identify] is the search of [Image.open] for a format plugin that
      accepts the file: it reads the header only, and gives the format
      name and the size of the image, or nothing;
    - [decode] is [load()], which reads the pixel data; it fails on data
      that is truncated or broken;
    - [thumbnail] is [copy()] then [thumbnail(size, LANCZOS)]: the scaled
      pixels and their size; it fails on pixel modes that cannot be
      resampled;
    - [png_encode] is [frame.save(image_io, "png")]; it fails on pixel
      modes that PNG cannot hold. *)
Record Codec := {
  pixels : Type;
  identify : bytes → option (string * (N * N));
  decode : bytes → option pixels;
  thumbnail : pixels → N * N → N * N → option (pixels * (N * N));
  png_encode : pixels → N * N → option bytes;
}.

(** An image object as [Image.open] returns it: the file stays open, the
    pixel data is not read yet. *)
Record Image := {
  im_fp : file;
  im_format : string;
  im_size : N * N;
}.

(** ** Little-endian fields ([PIL._binary])

    [o8] keeps the low eight bits; [o16] and [o32] are [struct.pack] with
    ["<H"] and ["<I"], which raises [struct.error] on a number that does
    not fit: the writer below tests the range before it calls them. *)

Definition o8 (n : N) : Byte.byte :=
  match Byte.of_N (n mod 256)%N with
  | Some b => b
  | None => Byte.x00
  end.

Definition o16 (n : N) : bytes := [o8 n; o8 (n / 256)%N].

Definition o32 (n : N) : bytes :=
  [o8 n; o8 (n / 256)%N; o8 (n / 65536)%N; o8 (n / 16777216)%N].

Definition blen (b : bytes) : N := N.of_nat (length b).

Section Pillow.

Variable c : Codec.

(** ** [Image.open(filename)] *)
Definition Image_open (filename : string) : Py Image :=
  (fp <- open_rb filename ;;
   fun w =>
     match read_all fp w with
     | Raise e => (Raise e, close fp w)
     | Ok data =>
         match identify c data with
         | Some (fmt, sz) =>
             (Ok {| im_fp := fp; im_format := fmt; im_size := sz |}, w)
         | None =>
             (* if exclusive_fp: fp.close() *)
             (Raise (UnidentifiedImageError filename), close fp w)
         end
     end)%py.

(** ** [Image.__exit__]: closes the file of the image; returns [None],
    so no exception is swallowed. *)
Definition Image_exit (img : Image) (w : World) : bool * World :=
  (false, close (im_fp img) w).

(** ** [load()]: the pixel data, read through the file of the image. *)
Definition Image_load (img : Image) (w : World) : result (pixels c) :=
  match read_all (im_fp img) w with
  | Raise e => Raise e
  | Ok data =>
      match decode c data with
      | Some px => Ok px
      | None => Raise (OSError "image file is truncated")
      end
  end.

(** ** The ICO writer, [IcoImagePlugin._save] *)

Definition _MAGIC : bytes := [Byte.x00; Byte.x00; Byte.x01; Byte.x00].

Definition size_eqb (a b : N * N) : bool :=
  (a.1 =? b.1)%N && (a.2 =? b.2)%N.

Definition size_ltb (a b : N * N) : bool :=
  (a.1 <? b.1)%N || ((a.1 =? b.1)%N && (a.2 <? b.2)%N).

(** [sorted(set(sizes))]. *)
Fixpoint insert_size (x : N * N) (l : list (N * N)) : list (N * N) :=
  match l with
  | [] => [x]
  | y :: l' =>
      if size_ltb x y then x :: l
      else if size_eqb x y then l
      else y :: insert_size x l'
  end.

Definition sorted_set (sizes : list (N * N)) : list (N * N) :=
  foldr insert_size [] sizes.

(** The loop that collects the frames to embed.  A requested size that
    exceeds the image in width or in height, or exceeds 256, is skipped;
    the image itself is taken when it has the requested size, a thumbnail
    of it otherwise.  Nothing is collected when a thumbnail cannot be
    made. *)
Fixpoint ico_frames_loop (px : pixels c) (size : N * N) (sizes : list (N * N))
  : option (list (pixels c * (N * N))) :=
  match sizes with
  | [] => Some []
  | sz :: rest =>
      if (size.1 <? sz.1)%N || (size.2 <? sz.2)%N
         || (256 <? sz.1)%N || (256 <? sz.2)%N
      then ico_frames_loop px size rest
      else if size_eqb size sz
      then cons (px, size) <$> ico_frames_loop px size rest
      else match thumbnail c px size sz with
           | None => None
           | Some frame => cons frame <$> ico_frames_loop px size rest
           end
  end.

Definition ico_frames (px : pixels c) (size : N * N) (sizes : list (N * N))
  : option (list (pixels c * (N * N))) :=
  ico_frames_loop px size (sorted_set sizes).

(** The first eight bytes of a directory entry: width and height (0
    stands for 256), colour count, reserved, planes, bit count. *)
Definition ico_entry_head (sz : N * N) : bytes :=
  [o8 (if (sz.1 <? 256)%N then sz.1 else 0%N);
   o8 (if (sz.2 <? 256)%N then sz.2 else 0%N);
   o8 0; Byte.x00; Byte.x00; Byte.x00] ++ o16 32.

(** The loop over the frames: [dir] and [data] are the directory and the
    image data written so far, [offset] the place of the next image
    data.  When a frame cannot be encoded the loop stops with the first
    half of its entry written. *)
Fixpoint ico_write (frames : list (pixels c * (N * N))) (offset : N)
    (dir data : bytes) : bytes * bytes * option exn :=
  match frames with
  | [] => (dir, data, None)
  | (px, sz) :: rest =>
      let dir := dir ++ ico_entry_head sz in
      match png_encode c px sz with
      | None => (dir, data, Some (OSError "cannot write mode as PNG"))
      | Some image_bytes =>
          let bytes_len := blen image_bytes in
          if (4294967296 <=? bytes_len)%N
          then (dir, data, Some (struct_error "'I' format requires 0 <= number <= 4294967295"))
          else if (4294967296 <=? offset)%N
          then (dir ++ o32 bytes_len, data,
                Some (struct_error "'I' format requires 0 <= number <= 4294967295"))
          else ico_write rest (offset + bytes_len)%N
                         (dir ++ o32 bytes_len ++ o32 offset)
                         (data ++ image_bytes)
      end
  end.

(** [_save(im, fp, filename)] with [sizes] in the encoder info: what is
    in the file when the writer returns or raises, and the exception. *)
Definition ico_save (px : pixels c) (size : N * N) (sizes : list (N * N))
  : bytes * option exn :=
  match ico_frames px size sizes with
  | None => (_MAGIC, Some (ValueError "image has wrong mode"))
  | Some frames =>
      if (65536 <=? N.of_nat (length frames))%N
      then (_MAGIC, Some (struct_error "'H' format requires 0 <= number <= 65535"))
      else
      let head := _MAGIC ++ o16 (N.of_nat (length frames)) in
      let data_start := (blen head + N.of_nat (length frames) * 16)%N in
      match ico_write frames data_start [] [] with
      | (dir, data, None) => (head ++ dir ++ data, None)
      | (dir, data, Some e) =>
          (* the image data lies beyond the unfinished directory *)
          let gap := N.to_nat (data_start - (blen head + blen dir))%N in
          (head ++ dir ++
             match data with
             | [] => []
             | _ => List.repeat Byte.x00 gap ++ data
             end,
           Some e)
      end
  end.

(** ** [Image.save(fp, format, sizes=...)] with a path for [fp] *)
Definition Image_save (img : Image) (filename : string) (format : string)
    (sizes : list (N * N)) : Py unit :=
  fun w =>
    (* self._ensure_mutable() *)
    match Image_load img w with
    | Raise e => (Raise e, w)
    | Ok px =>
        (* save_handler = SAVE[format.upper()] *)
        if negb (String.eqb format "ICO") then (Raise (KeyError format), w)
        else
          let created := bool_decide (files w !! filename = None) in
          match open_wb filename w with
          | (Raise e, w1) => (Raise e, w1)
          | (Ok fp, w1) =>
              let '(written, err) := ico_save px (im_size img) sizes in
              let w2 := close fp (write_all fp written w1) in
              match err with
              | None => (Ok tt, w2)
              | Some e =>
                  (Raise e, if created then os_remove filename w2 else w2)
              end
          end
    end.

End Pillow.

(* ===================================================================== *)
(** * The script *)
(* ===================================================================== *)

Definition message (l : Launch) : string :=
  "Converted '" +:+ file_name +:+ "' to ICO format at '" +:+ ico_path l +:+ "'".

(** The whole module, run once. *)
Definition logo_coverter (c : Codec) (l : Launch) : Py unit :=
  (with_as (Image_open c (png_path l)) Image_exit
     (fun img => Image_save c img (ico_path l) "ICO" [(256, 256)%N]) ;;
   print (message l))%py.

(** The run in closed form: one case analysis on the world it starts in.
    This is no part of the embedding; [logo_coverter_outcome] below proves
    that [logo_coverter] computes it. *)
Definition outcome (c : Codec) (l : Launch) (w : World) : result unit * World :=
  match files w !! png_path l with
  | None => (Raise (FileNotFoundError (png_path l)), w)
  | Some data =>
      match identify c data with
      | None => (Raise (UnidentifiedImageError (png_path l)), w)
      | Some (fmt, sz) =>
          match decode c data with
          | None => (Raise (OSError "image file is truncated"), w)
          | Some px =>
              if bool_decide (ico_path l ∈ read_only w)
              then (Raise (PermissionError (ico_path l)), w)
              else
                match ico_save c px sz [(256, 256)%N] with
                | (written, None) =>
                    (Ok tt,
                     set_stdout (fun out => out +:+ message l +:+ newline)
                       (set_files <[ico_path l := written]> w))
                | (written, Some e) =>
                    (Raise e,
                     if bool_decide (files w !! ico_path l = None) then w
                     else set_files <[ico_path l := written]> w)
                end
          end
      end
  end.

(* ===================================================================== *)
(** * Reading an ICO directory back *)
(* ===================================================================== *)

(** A dimension byte of a directory entry: 0 stands for 256. *)
Definition ico_dim (b : Byte.byte) : N :=
  if (Byte.to_N b =? 0)%N then 256%N else Byte.to_N b.

Definition le16 (b0 b1 : Byte.byte) : N :=
  (Byte.to_N b0 + 256 * Byte.to_N b1)%N.

Definition le32 (b0 b1 b2 b3 : Byte.byte) : N :=
  (Byte.to_N b0 + 256 * Byte.to_N b1 + 65536 * Byte.to_N b2
   + 16777216 * Byte.to_N b3)%N.

(** A directory entry: the size of the image, the length of its data and
    where the data starts in the file. *)
Record ico_entry := {
  entry_size : N * N;
  entry_bytes_len : N;
  entry_offset : N;
}.

(** [n] directory entries of sixteen bytes each. *)
Fixpoint ico_read_entries (n : nat) (b : bytes) : option (list ico_entry) :=
  match n with
  | O => Some []
  | S n' =>
      match b with
      | bw :: bh :: _ :: _ :: _ :: _ :: _ :: _
        :: l0 :: l1 :: l2 :: l3 :: f0 :: f1 :: f2 :: f3 :: rest =>
          match ico_read_entries n' rest with
          | Some dir =>
              Some ({| entry_size := (ico_dim bw, ico_dim bh);
                       entry_bytes_len := le32 l0 l1 l2 l3;
                       entry_offset := le32 f0 f1 f2 f3 |} :: dir)
          | None => None
          end
      | _ => None
      end
  end.

(** The directory of an ICO file: the file starts with the magic number,
    then the number of images on two bytes, then as many directory
    entries.  [None] when the file is not of that form. *)
Definition ico_entries (b : bytes) : option (list ico_entry) :=
  match b with
  | m0 :: m1 :: m2 :: m3 :: lo :: hi :: rest =>
      if Byte.eqb m0 Byte.x00 && Byte.eqb m1 Byte.x00
         && Byte.eqb m2 Byte.x01 && Byte.eqb m3 Byte.x00
      then ico_read_entries (N.to_nat (le16 lo hi)) rest
      else None
  | _ => None
  end.

(** The sizes of the images an ICO file announces. *)
Definition ico_directory (b : bytes) : option (list (N * N)) :=
  map entry_size <$> ico_entries b.

(** The data of an entry, which must lie within the file. *)
Definition ico_entry_data (b : bytes) (e : ico_entry) : option bytes :=
  if (entry_offset e + entry_bytes_len e <=? blen b)%N
  then Some (take (N.to_nat (entry_bytes_len e)) (drop (N.to_nat (entry_offset e)) b))
  else None.

(** An ICO file decoded: the announced size and the data of each image.
    [None] when the directory is malformed or points outside the file. *)
Definition ico_images (b : bytes) : option (list ((N * N) * bytes)) :=
  dir ← ico_entries b;
  mapM (fun e => data ← ico_entry_data b e; Some (entry_size e, data)) dir.

(** A frame size as the directory holds it. *)
Definition ico_stored_size (sz : N * N) : N * N :=
  (ico_dim (o8 (if (sz.1 <? 256)%N then sz.1 else 0%N)),
   ico_dim (o8 (if (sz.2 <? 256)%N then sz.2 else 0%N))).

(* ===================================================================== *)
(** * A small codec, for running the script on concrete worlds *)
(* ===================================================================== *)

Module Sample.

(** A file of this codec is a format tag, [P] or [J], the width and the
    height on two bytes each, a byte telling whether the pixel data is
    complete, a byte for the pixel mode, and the pixel data. *)
Definition be16 (hi lo : Byte.byte) : N :=
  (Byte.to_N hi * 256 + Byte.to_N lo)%N.

Definition identify (b : bytes) : option (string * (N * N)) :=
  match b with
  | tag :: wh :: wl :: hh :: hl :: _ =>
      if Byte.eqb tag Byte.x50 then Some ("PNG", (be16 wh wl, be16 hh hl))
      else if Byte.eqb tag Byte.x4a then Some ("JPEG", (be16 wh wl, be16 hh hl))
      else None
  | _ => None
  end.

Definition decode (b : bytes) : option bytes :=
  match b with
  | _ :: _ :: _ :: _ :: _ :: complete :: px =>
      if Byte.eqb complete Byte.x01 then Some px else None
  | _ => None
  end.

(** Scaling into the requested box, the longer side filling it.  Pixel
    data whose mode byte is [0xfe] cannot be resampled. *)
Definition thumbnail (px : bytes) (size box : N * N) : option (bytes * (N * N)) :=
  match px with
  | Byte.xfe :: _ => None
  | _ =>
      if (size.2 <=? size.1)%N
      then Some (px, (box.1, N.max 1 (size.2 * box.1 / size.1)))
      else Some (px, (N.max 1 (size.1 * box.2 / size.2), box.2))
  end.

(** Pixel data whose mode byte is [0xff] cannot be written as PNG. *)
Definition png_encode (px : bytes) (size : N * N) : option bytes :=
  match px with
  | mode :: _ => if Byte.eqb mode Byte.xff then None else Some (Byte.x89 :: px)
  | [] => Some [Byte.x89]
  end.

Definition codec : Codec :=
  Build_Codec bytes identify decode thumbnail png_encode.

(** A picture file of the given format tag and size. *)
Definition picture (tag : Byte.byte) (w h : N) (complete mode : Byte.byte) : bytes :=
  [tag; o8 (w / 256); o8 w; o8 (h / 256); o8 h; complete; mode; Byte.x2a].

Definition launch : Launch :=
  {| script_file := "/home/u/app/logo_coverter.py"; getcwd := "/tmp" |}.

(** A world with the given content at [logo.png], and nothing else. *)
Definition world_with (logo : bytes) : World :=
  {| files := {[ "/home/u/app/logo.png" := logo ]};
     read_only := ∅; open_fds := ∅; stdout := "" |}.

(** The same with a file already at [logo.ico]. *)
Definition world_with_ico (logo ico : bytes) : World :=
  {| files := {[ "/home/u/app/logo.png" := logo; "/home/u/app/logo.ico" := ico ]};
     read_only := ∅; open_fds := ∅; stdout := "" |}.

Definition empty_world : World :=
  {| files := ∅; read_only := ∅; open_fds := ∅; stdout := "" |}.

End Sample.


(* ===================================================================== *)
(** * The script on concrete inputs *)
(* ===================================================================== *)

Example splitext_logo : os_path.splitext "logo.png" = ("logo", ".png").
Proof. reflexivity. Qed.

Example splitext_dotfile : os_path.splitext "/a.b/.bashrc" = ("/a.b/.bashrc", "").
Proof. reflexivity. Qed.

Example splitext_two : os_path.splitext "x/archive.tar.gz" = ("x/archive.tar", ".gz").
Proof. reflexivity. Qed.

Example normpath_ex1 : os_path.normpath "/home//u/./app/../app/conv.py" = "/home/u/app/conv.py".
Proof. reflexivity. Qed.

Example normpath_ex2 : os_path.normpath "//a/../../b/" = "//b".
Proof. reflexivity. Qed.

Example normpath_ex3 : os_path.normpath "../x/../../y" = "../../y".
Proof. reflexivity. Qed.

Example normpath_ex4 : os_path.normpath "///a" = "/a".
Proof. reflexivity. Qed.

Example dirname_ex1 : os_path.dirname "/home/u/app/conv.py" = "/home/u/app".
Proof. reflexivity. Qed.

Example dirname_ex2 : os_path.dirname "/conv.py" = "/".
Proof. reflexivity. Qed.

Example dirname_ex3 : os_path.dirname "a//b" = "a".
Proof. reflexivity. Qed.

Example paths_abs :
  let l := {| script_file := "/home/u/app/logo_coverter.py"; getcwd := "/tmp" |} in
  png_path l = "/home/u/app/logo.png" /\ ico_path l = "/home/u/app/logo.ico".
Proof. split; reflexivity. Qed.

Example paths_rel :
  let l := {| script_file := "app/logo_coverter.py"; getcwd := "/home/u" |} in
  png_path l = "/home/u/app/logo.png" /\ ico_path l = "/home/u/app/logo.ico".
Proof. split; reflexivity. Qed.

Example run_256 :
  let w := Sample.world_with (Sample.picture Byte.x50 256 256 Byte.x01 Byte.x00) in
  let '(r, w') := logo_coverter Sample.codec Sample.launch w in
  r = Ok tt
  ∧ files w' !! "/home/u/app/logo.ico"
    = Some (_MAGIC ++ o16 1 ++ ico_entry_head (256, 256)%N ++ o32 3 ++ o32 22
              ++ [Byte.x89; Byte.x00; Byte.x2a])
  ∧ open_fds w' = ∅
  ∧ stdout w' = "Converted 'logo.png' to ICO format at '/home/u/app/logo.ico'" +:+ newline.
Proof. vm_compute. repeat split. Qed.

Example run_100 :
  let w := Sample.world_with (Sample.picture Byte.x50 100 100 Byte.x01 Byte.x00) in
  let '(r, w') := logo_coverter Sample.codec Sample.launch w in
  r = Ok tt
  ∧ files w' !! "/home/u/app/logo.ico" = Some (_MAGIC ++ o16 0).
Proof. vm_compute. repeat split. Qed.

Example run_missing :
  logo_coverter Sample.codec Sample.launch Sample.empty_world
  = (Raise (FileNotFoundError "/home/u/app/logo.png"), Sample.empty_world).
Proof. vm_compute. reflexivity. Qed.

(** Splits a statement about [outcome] into the six ways a run can go. *)
Ltac outcome_cases :=
  unfold outcome in *;
  repeat case_match; simplify_eq/=; try done.

(* ===================================================================== *)
(** * Facts about strings and paths *)
(* ===================================================================== *)

Local Arguments String.append !_ _ / : simpl nomatch.

Section StringFacts.

Variable c : ascii.

Lemma str_app_cons (a : ascii) (s t : string) :
  String a s +:+ t = String a (s +:+ t).
Proof. done. Qed.

Lemma str_app_assoc (s1 s2 s3 : string) : (s1 +:+ s2) +:+ s3 = s1 +:+ s2 +:+ s3.
Proof. induction s1 as [|a s1 IH]; simpl; [done | by rewrite IH]. Qed.

Lemma str_app_inv_head (s x y : string) : s +:+ x = s +:+ y → x = y.
Proof. induction s as [|a s IH]; simpl; [done | intros [=]; auto]. Qed.

Lemma rfind_from_app (s1 s2 : string) (i last : Z) :
  PyStr.rfind_from c (s1 +:+ s2) i last
  = PyStr.rfind_from c s2 (i + Z.of_nat (String.length s1))
                     (PyStr.rfind_from c s1 i last).
Proof.
  revert i last. induction s1 as [|a s1 IH]; intros i last; simpl.
  - by rewrite Z.add_0_r.
  - rewrite IH. f_equal. lia.
Qed.


Lemma rfind_from_free (s : string) (i last : Z) :
  PyStr.free_of c s = true → PyStr.rfind_from c s i last = last.
Proof.
  revert i last. induction s as [|a s IH]; intros i last; simpl; [done|].
  intros [Ha Hs]%andb_prop. apply negb_true_iff in Ha. rewrite Ha. by apply IH.
Qed.

(** The last [c] of [d c b], for [b] without [c], is the one shown. *)
Lemma rfind_sep_tail (d b : string) :
  PyStr.free_of c b = true →
  PyStr.rfind c (d +:+ String c b) = Z.of_nat (String.length d).
Proof.
  intros Hb. unfold PyStr.rfind. rewrite rfind_from_app. simpl.
  rewrite Ascii.eqb_refl. rewrite rfind_from_free by done. lia.
Qed.

Lemma str_take_app_length (d s : string) :
  PyStr.take (String.length d) (d +:+ s) = d.
Proof. induction d as [|a d IH]; simpl; [by destruct s | by rewrite IH]. Qed.

Lemma str_drop_app_length (d s : string) :
  PyStr.drop (String.length d) (d +:+ s) = s.
Proof. induction d as [|a d IH]; simpl; [by destruct s | done]. Qed.

Lemma str_length_app_one (d : string) (a : ascii) :
  String.length (d +:+ String a "") = S (String.length d).
Proof. induction d as [|x d IH]; simpl; [done | by rewrite IH]. Qed.

Lemma rstrip_empty_iff (s : string) :
  PyStr.rstrip c s = "" ↔ PyStr.all_char c s = true.
Proof.
  induction s as [|a s IH]; simpl; [done|].
  destruct (PyStr.rstrip c s) eqn:Hr.
  - destruct (Ascii.eqb a c); simpl.
    + split; [intros _; by apply IH | done].
    + split; done.
  - split; [done|]. intros [_ Hs]%andb_prop. apply IH in Hs. done.
Qed.

Lemma endswith_rstrip (s : string) :
  PyStr.endswith c (PyStr.rstrip c s) = false.
Proof.
  induction s as [|a s IH]; simpl; [done|].
  destruct (PyStr.rstrip c s) as [|b r] eqn:Hr.
  - destruct (Ascii.eqb a c) eqn:Ha; simpl; [done | by rewrite Ha].
  - simpl in *. done.
Qed.

Lemma rstrip_id (s : string) :
  PyStr.endswith c s = false → PyStr.rstrip c s = s.
Proof.
  induction s as [|a s IH]; simpl; [done|].
  destruct s as [|b s].
  - simpl. intros ->. done.
  - intros H. rewrite IH by done. done.
Qed.

Lemma rstrip_app_one (s : string) :
  PyStr.rstrip c (s +:+ String c "") = PyStr.rstrip c s.
Proof.
  induction s as [|a s IH]; simpl.
  - by rewrite Ascii.eqb_refl.
  - by rewrite IH.
Qed.

Lemma all_char_app_one (s : string) :
  PyStr.all_char c (s +:+ String c "") = PyStr.all_char c s.
Proof.
  induction s as [|a s IH]; simpl.
  - by rewrite Ascii.eqb_refl.
  - by rewrite IH.
Qed.

Lemma all_char_endswith (s : string) :
  PyStr.all_char c s = true → s ≠ "" → PyStr.endswith c s = true.
Proof.
  induction s as [|a s IH]; simpl; [done|].
  intros [Ha Hs]%andb_prop _. destruct s as [|b s]; [done|].
  apply IH; done.
Qed.

(** A string that ends with [c] is some string followed by [c]. *)
Lemma endswith_inv (s : string) :
  PyStr.endswith c s = true → ∃ s', s = s' +:+ String c "".
Proof.
  induction s as [|a s IH]; simpl; [done|].
  destruct s as [|b s].
  - intros ->%Ascii.eqb_eq. by exists "".
  - intros [s' Hs']%IH. exists (String a s'). simpl. by rewrite <- Hs'.
Qed.

Lemma startswith_app (s t : string) :
  PyStr.startswith c s = true → PyStr.startswith c (s +:+ t) = true.
Proof. by destruct s. Qed.

Lemma startswith_take (n : nat) (s : string) :
  PyStr.startswith c s = true → PyStr.startswith c (PyStr.take (S n) s) = true.
Proof. by destruct s. Qed.

Lemma startswith_rstrip (s : string) :
  PyStr.startswith c s = true → PyStr.all_char c s = false →
  PyStr.startswith c (PyStr.rstrip c s) = true.
Proof.
  destruct s as [|a s]; simpl; [done|]. intros Ha Hall.
  rewrite Ha in Hall. simpl in Hall.
  destruct (PyStr.rstrip c s) eqn:Hr; [|done].
  apply rstrip_empty_iff in Hr. congruence.
Qed.

Lemma rfind_from_bounds (s : string) (i last : Z) :
  last < i →
  last ≤ PyStr.rfind_from c s i last < i + Z.of_nat (String.length s)
  ∨ PyStr.rfind_from c s i last = last.
Proof.
  revert i last. induction s as [|a s IH]; intros i last Hl; simpl; [by right|].
  destruct (Ascii.eqb a c).
  - destruct (IH (i + 1) i) as [H|H]; lia.
  - destruct (IH (i + 1) last) as [H|H]; [lia| |]; [left; lia | by right].
Qed.

Lemma rfind_startswith (s : string) :
  PyStr.startswith c s = true → 0 ≤ PyStr.rfind c s.
Proof.
  destruct s as [|a s]; simpl; [done|]. intros Ha. unfold PyStr.rfind.
  cbn [PyStr.rfind_from]. rewrite Ha.
  destruct (rfind_from_bounds s (0 + 1) 0) as [H|H]; lia.
Qed.

End StringFacts.

Section PathFacts.

Import os_path.

Lemma isabs_normpath (p : string) : isabs p = true → isabs (normpath p) = true.
Proof.
  unfold isabs, normpath. intros Hp.
  destruct (String.eqb p "") eqn:E.
  { apply String.eqb_eq in E. by subst. }
  assert (∃ n, normpath_initial_slashes p = S n) as [n ->].
  { unfold normpath_initial_slashes. rewrite Hp.
    destruct (_ && _); eauto. }
  cbn [PyStr.repeat]. rewrite str_app_cons. cbn [String.eqb PyStr.startswith].
  apply Ascii.eqb_refl.
Qed.

Lemma isabs_join (a b : string) : isabs a = true → isabs (join a b) = true.
Proof.
  unfold isabs, join. intros Ha.
  destruct (PyStr.startswith sep b) eqn:Hb; [done|].
  destruct (String.eqb a "" || PyStr.endswith sep a); by apply startswith_app.
Qed.

Lemma isabs_abspath (cwd p : string) :
  isabs cwd = true → isabs (abspath cwd p) = true.
Proof.
  intros Hc. unfold abspath. apply isabs_normpath.
  destruct (isabs p) eqn:Hp; [done | by apply isabs_join].
Qed.

Lemma isabs_dirname (p : string) : isabs p = true → isabs (dirname p) = true.
Proof.
  unfold isabs, dirname. intros Hp.
  pose proof (rfind_startswith sep p Hp) as Hi.
  destruct (Z.to_nat (PyStr.rfind sep p + 1)) as [|n] eqn:Hn; [lia|].
  pose proof (startswith_take sep n p Hp) as Hh.
  destruct (negb (String.eqb (PyStr.take (S n) p) "")
            && negb (PyStr.all_char sep (PyStr.take (S n) p))) eqn:Hc; [|done].
  apply andb_prop in Hc as [_ Hall]. apply negb_true_iff in Hall.
  by apply startswith_rstrip.
Qed.

(** The two shapes of [join a b] for a relative [b]. *)
Lemma join_relative (a b : string) :
  PyStr.startswith sep b = false →
  (join a b = a +:+ b ∧ (a = "" ∨ PyStr.endswith sep a = true))
  ∨ (join a b = a +:+ String sep b ∧ a ≠ "" ∧ PyStr.endswith sep a = false).
Proof.
  intros Hb. unfold join. rewrite Hb.
  destruct (String.eqb a "") eqn:Ha; simpl.
  - left. apply String.eqb_eq in Ha. auto.
  - apply String.eqb_neq in Ha.
    destruct (PyStr.endswith sep a) eqn:He; [left | right]; auto.
Qed.

Lemma free_of_startswith (b : string) :
  PyStr.free_of sep b = true → PyStr.startswith sep b = false.
Proof.
  destruct b as [|x b]; simpl; [done|].
  intros [H _]%andb_prop. by apply negb_true_iff in H.
Qed.

(** Where the last separator of [join a b] is. *)
Lemma join_split (a b : string) :
  PyStr.free_of sep b = true →
  ∃ head, join a b = head +:+ b
          ∧ Z.to_nat (PyStr.rfind sep (join a b) + 1) = String.length head
          ∧ ((head = "" ∧ a = "")
             ∨ (head = a ∧ PyStr.endswith sep a = true)
             ∨ (head = a +:+ String sep "" ∧ a ≠ "" ∧ PyStr.endswith sep a = false)).
Proof.
  intros Hb.
  destruct (join_relative a b (free_of_startswith b Hb)) as [[-> [->|He]]|(-> & Hne & He)].
  - exists "". split; [done|]. split; [|auto].
    unfold PyStr.rfind. simpl. by rewrite rfind_from_free.
  - exists a. split; [done|]. split; [|auto].
    destruct (endswith_inv sep a He) as [a' ->].
    rewrite str_app_assoc. simpl. rewrite rfind_sep_tail by done.
    rewrite str_length_app_one. lia.
  - exists (a +:+ String sep ""). split; [by rewrite str_app_assoc|].
    split; [|auto]. rewrite rfind_sep_tail by done.
    rewrite str_length_app_one. lia.
Qed.

Lemma basename_join (a b : string) :
  PyStr.free_of sep b = true → basename (join a b) = b.
Proof.
  intros Hb. unfold basename.
  destruct (join_split a b Hb) as (head & Hj & -> & _).
  rewrite Hj. apply str_drop_app_length.
Qed.

(** A result of [dirname] is all separators, or does not end with one. *)
Lemma dirname_shape (p : string) :
  PyStr.all_char sep (dirname p) = true ∨ PyStr.endswith sep (dirname p) = false.
Proof.
  unfold dirname.
  set (head := PyStr.take _ p).
  destruct (String.eqb head "") eqn:He; simpl.
  - apply String.eqb_eq in He. rewrite He. by left.
  - destruct (PyStr.all_char sep head) eqn:Ha; simpl; [by left|].
    right. apply endswith_rstrip.
Qed.

(** A file joined to a directory that [dirname] gave lies in it. *)
Lemma dirname_join (p b : string) :
  PyStr.free_of sep b = true → dirname (join (dirname p) b) = dirname p.
Proof.
  intros Hb. set (d := dirname p).
  destruct (join_split d b Hb) as (head & Hj & Hi & Hcase).
  unfold dirname at 1. rewrite Hi, Hj, str_take_app_length.
  destruct Hcase as [[-> Hd]|[[-> He]|(-> & Hne & He)]].
  - done.
  - destruct (dirname_shape p) as [Ha|Hn]; fold d in Ha || fold d in Hn.
    + rewrite Ha. by rewrite andb_false_r.
    + congruence.
  - rewrite all_char_app_one, rstrip_app_one.
    destruct (PyStr.all_char sep d) eqn:Ha.
    + pose proof (all_char_endswith sep d Ha Hne). congruence.
    + rewrite (rstrip_id sep d He).
      destruct (String.eqb (d +:+ String sep "") "") eqn:E; [|done].
      apply String.eqb_eq in E. by destruct d.
Qed.

End PathFacts.

Lemma ico_name : fst (os_path.splitext file_name) +:+ ".ico" = "logo.ico".
Proof. reflexivity. Qed.

Lemma png_path_ne_ico_path (l : Launch) : png_path l ≠ ico_path l.
Proof.
  unfold png_path, ico_path. rewrite ico_name. unfold file_name.
  destruct (join_relative (current_dir l) "logo.png" eq_refl) as [[-> _]|[-> _]];
    destruct (join_relative (current_dir l) "logo.ico" eq_refl) as [[-> _]|[-> _]];
    intros E; apply str_app_inv_head in E; done.
Qed.

(* ===================================================================== *)
(** * What a run does, case by case *)
(* ===================================================================== *)

Section Run.

Variable c : Codec.

Lemma close_fresh (w : World) (filename : string) :
  close {| fileno := fresh (dom (open_fds w)); name := filename |}
        (set_open_fds <[fresh (dom (open_fds w)) := filename]> w) = w.
Proof.
  destruct w as [fs ro fds out]. unfold close, set_open_fds. simpl. f_equal.
  apply delete_insert_dom, is_fresh.
Qed.

Lemma read_all_fresh (w : World) (filename : string) :
  read_all {| fileno := fresh (dom (open_fds w)); name := filename |}
           (set_open_fds <[fresh (dom (open_fds w)) := filename]> w)
  = match files w !! filename with
    | Some data => Ok data
    | None => Raise (OSError "file vanished")
    end.
Proof. unfold read_all. simpl. by rewrite lookup_insert_eq. Qed.

(** [Image.open]: the file must exist and be identified; the world
    changes only when an image is returned, by the descriptor it holds. *)
Lemma Image_open_eq (filename : string) (w : World) :
  Image_open c filename w =
  match files w !! filename with
  | None => (Raise (FileNotFoundError filename), w)
  | Some data =>
      match identify c data with
      | Some (fmt, sz) =>
          (Ok {| im_fp := {| fileno := fresh (dom (open_fds w)); name := filename |};
                 im_format := fmt; im_size := sz |},
           set_open_fds <[fresh (dom (open_fds w)) := filename]> w)
      | None => (Raise (UnidentifiedImageError filename), w)
      end
  end.
Proof.
  unfold Image_open, bind, open_rb.
  destruct (files w !! filename) as [data|] eqn:Hf; [|done].
  rewrite read_all_fresh, Hf.
  destruct (identify c data) as [[fmt sz]|]; [done|].
  by rewrite close_fresh.
Qed.

(** The world once the output file has been opened, written and closed. *)
Lemma written_world (w : World) (filename : string) (data : bytes) :
  let fd := fresh (dom (open_fds w)) in
  let fp := {| fileno := fd; name := filename |} in
  close fp (write_all fp data
              (set_files <[filename := []]> (set_open_fds <[fd := filename]> w)))
  = set_files <[filename := data]> w.
Proof.
  destruct w as [fs ro fds out].
  unfold close, write_all, set_files, set_open_fds. simpl. f_equal.
  - apply insert_insert_eq.
  - apply delete_insert_dom, is_fresh.
Qed.

Lemma remove_written (w : World) (filename : string) (data : bytes) :
  files w !! filename = None →
  os_remove filename (set_files <[filename := data]> w) = w.
Proof.
  destruct w as [fs ro fds out]. unfold os_remove, set_files. simpl.
  intros H. f_equal. by apply delete_insert_id.
Qed.

(** [Image.save] on an image whose file is open and holds [data]. *)
Lemma Image_save_eq (img : Image) (filename : string) (sizes : list (N * N))
    (w : World) (data : bytes) :
  read_all (im_fp img) w = Ok data →
  Image_save c img filename "ICO" sizes w =
  match decode c data with
  | None => (Raise (OSError "image file is truncated"), w)
  | Some px =>
      if bool_decide (filename ∈ read_only w)
      then (Raise (PermissionError filename), w)
      else
        match ico_save c px (im_size img) sizes with
        | (written, None) => (Ok tt, set_files <[filename := written]> w)
        | (written, Some e) =>
            (Raise e,
             if bool_decide (files w !! filename = None) then w
             else set_files <[filename := written]> w)
        end
  end.
Proof.
  intros Hr. unfold Image_save, Image_load. rewrite Hr.
  destruct (decode c data) as [px|]; [|done].
  cbn [String.eqb negb]. change (String.eqb "ICO" "ICO") with true. cbn [negb].
  unfold open_wb.
  destruct (bool_decide (filename ∈ read_only w)); [done|].
  destruct (ico_save c px (im_size img) sizes) as [written [e|]].
  - rewrite written_world.
    destruct (bool_decide (files w !! filename = None)) eqn:Hc; [|done].
    apply bool_decide_eq_true in Hc. by rewrite remove_written.
  - by rewrite written_world.
Qed.

Variable l : Launch.

Lemma close_fresh_files (f : gmap string bytes → gmap string bytes)
    (w : World) (filename : string) :
  close {| fileno := fresh (dom (open_fds w)); name := filename |}
        (set_files f (set_open_fds <[fresh (dom (open_fds w)) := filename]> w))
  = set_files f w.
Proof.
  destruct w as [fs ro fds out]. unfold close, set_files, set_open_fds. simpl.
  f_equal. apply delete_insert_dom, is_fresh.
Qed.

Lemma logo_coverter_outcome (w : World) : logo_coverter c l w = outcome c l w.
Proof.
  unfold logo_coverter, outcome, bind, with_as.
  rewrite Image_open_eq.
  destruct (files w !! png_path l) as [data|] eqn:Hf; [|done].
  destruct (identify c data) as [[fmt sz]|]; [|done].
  set (fd := fresh (dom (open_fds w))).
  set (w1 := set_open_fds <[fd := png_path l]> w).
  rewrite (Image_save_eq _ _ _ w1 data); cycle 1.
  { unfold w1, fd. cbn [im_fp]. by rewrite read_all_fresh, Hf. }
  cbn [im_size].
  destruct (decode c data) as [px|].
  2:{ unfold Image_exit. cbn [im_fp]. unfold w1, fd. by rewrite close_fresh. }
  change (read_only w1) with (read_only w).
  destruct (bool_decide (ico_path l ∈ read_only w)).
  { unfold Image_exit. cbn [im_fp]. unfold w1, fd. by rewrite close_fresh. }
  destruct (ico_save c px sz [(256, 256)%N]) as [written [e|]].
  - change (files w1) with (files w).
    unfold Image_exit. cbn [im_fp].
    destruct (bool_decide (files w !! ico_path l = None)).
    + unfold w1, fd. by rewrite close_fresh.
    + unfold w1, fd. by rewrite close_fresh_files.
  - unfold Image_exit. cbn [im_fp]. unfold w1, fd.
    by rewrite close_fresh_files.
Qed.

End Run.


Section Frame.

Variable c : Codec.
Variable l : Launch.

Lemma outcome_files_frame (w : World) (p : string) :
  p ≠ ico_path l → files (outcome c l w).2 !! p = files w !! p.
Proof. intros Hp. outcome_cases; by rewrite lookup_insert_ne. Qed.

Lemma outcome_read_only (w : World) : read_only (outcome c l w).2 = read_only w.
Proof. outcome_cases. Qed.

Lemma outcome_open_fds (w : World) : open_fds (outcome c l w).2 = open_fds w.
Proof. outcome_cases. Qed.

Lemma outcome_stdout (w : World) :
  stdout (outcome c l w).2
  = match (outcome c l w).1 with
    | Ok _ => stdout w +:+ message l +:+ newline
    | Raise _ => stdout w
    end.
Proof. outcome_cases. Qed.

End Frame.

Section IcoFacts.

Variable c : Codec.

(** The frames for the one size the script asks for. *)
Lemma ico_frames_256 (px : pixels c) (sz : N * N) :
  ico_frames c px sz [(256, 256)%N]
  = if (sz.1 <? 256)%N || (sz.2 <? 256)%N then Some []
    else if size_eqb sz (256, 256)%N then Some [(px, sz)]
    else match thumbnail c px sz (256, 256)%N with
         | Some frame => Some [frame]
         | None => None
         end.
Proof.
  unfold ico_frames. cbn [sorted_set foldr insert_size ico_frames_loop fst snd].
  change (256 <? 256)%N with false. rewrite !orb_false_r.
  repeat case_match; done.
Qed.

Lemma ico_frames_256_length (px : pixels c) (sz : N * N)
    (frames : list (pixels c * (N * N))) :
  ico_frames c px sz [(256, 256)%N] = Some frames → (length frames ≤ 1)%nat.
Proof.
  rewrite ico_frames_256. repeat case_match; intros [= <-]; simpl; lia.
Qed.

(** What [ico_save] writes for at most one frame. *)
Lemma ico_save_nil (px : pixels c) (sz : N * N) (sizes : list (N * N)) :
  ico_frames c px sz sizes = Some [] →
  ico_save c px sz sizes = (_MAGIC ++ o16 0, None).
Proof. unfold ico_save. intros ->. done. Qed.

Lemma ico_save_one (px : pixels c) (sz : N * N) (sizes : list (N * N))
    (fpx : pixels c) (fsz : N * N) :
  ico_frames c px sz sizes = Some [(fpx, fsz)] →
  ico_save c px sz sizes
  = match png_encode c fpx fsz with
    | Some image_bytes =>
        if (4294967296 <=? blen image_bytes)%N
        then (_MAGIC ++ o16 1 ++ ico_entry_head fsz,
              Some (struct_error "'I' format requires 0 <= number <= 4294967295"))
        else (_MAGIC ++ o16 1
                ++ (ico_entry_head fsz ++ o32 (blen image_bytes) ++ o32 22)
                ++ image_bytes, None)
    | None =>
        (_MAGIC ++ o16 1 ++ ico_entry_head fsz,
         Some (OSError "cannot write mode as PNG"))
    end.
Proof.
  unfold ico_save. intros ->.
  change (65536 <=? N.of_nat (length [(fpx, fsz)]))%N with false.
  cbn [ico_write length].
  destruct (png_encode c fpx fsz) as [image_bytes|].
  - destruct (4294967296 <=? blen image_bytes)%N.
    + cbn [app]. by rewrite app_nil_r.
    + done.
  - cbn [app]. by rewrite app_nil_r.
Qed.

Lemma to_N_o8 (n : N) : Byte.to_N (o8 n) = (n mod 256)%N.
Proof.
  unfold o8. destruct (Byte.of_N (n mod 256)) as [b|] eqn:Hb.
  - by apply Byte.to_of_N.
  - apply Byte.of_N_None_iff in Hb.
    pose proof (N.mod_upper_bound n 256). lia.
Qed.

(** [o32] read back. *)
Lemma le32_o32 (n : N) :
  (n < 4294967296)%N →
  le32 (o8 n) (o8 (n / 256)) (o8 (n / 65536)) (o8 (n / 16777216)) = n.
Proof.
  intros Hn. unfold le32. rewrite !to_N_o8.
  change 65536%N with (256 * 256)%N. change 16777216%N with (256 * 256 * 256)%N.
  rewrite <- !N.Div0.div_div.
  pose proof (N.div_mod n 256 ltac:(lia)) as H0.
  pose proof (N.div_mod (n / 256) 256 ltac:(lia)) as H1.
  pose proof (N.div_mod (n / 256 / 256) 256 ltac:(lia)) as H2.
  assert (n / 256 / 256 / 256 < 256)%N as H3.
  { rewrite !N.Div0.div_div. apply N.Div0.div_lt_upper_bound. lia. }
  rewrite (N.mod_small (n / 256 / 256 / 256) 256) by done.
  lia.
Qed.

(** The data of an entry that points at the end of what precedes it. *)
Lemma ico_entry_data_at (pre data : bytes) (e : ico_entry) :
  entry_offset e = blen pre → entry_bytes_len e = blen data →
  ico_entry_data (pre ++ data) e = Some data.
Proof.
  intros Ho Hl. unfold ico_entry_data. rewrite Ho, Hl. unfold blen.
  rewrite length_app, Nat2N.inj_add, (proj2 (N.leb_le _ _)) by lia.
  rewrite !Nat2N.id, drop_app_length, firstn_all. done.
Qed.

(** A file with one entry and the image data after it, read back. *)
Lemma ico_images_one (fsz : N * N) (image_bytes : bytes) :
  (blen image_bytes < 4294967296)%N →
  ico_images (_MAGIC ++ o16 1
                ++ (ico_entry_head fsz ++ o32 (blen image_bytes) ++ o32 22)
                ++ image_bytes)
  = Some [(ico_stored_size fsz, image_bytes)].
Proof.
  intros Hlen.
  set (pre := _MAGIC ++ o16 1 ++ ico_entry_head fsz
                ++ o32 (blen image_bytes) ++ o32 22).
  change (_MAGIC ++ o16 1
            ++ (ico_entry_head fsz ++ o32 (blen image_bytes) ++ o32 22)
            ++ image_bytes)
    with (pre ++ image_bytes).
  unfold ico_images.
  assert (ico_entries (pre ++ image_bytes)
          = Some [{| entry_size := ico_stored_size fsz;
                     entry_bytes_len :=
                       le32 (o8 (blen image_bytes)) (o8 (blen image_bytes / 256))
                            (o8 (blen image_bytes / 65536))
                            (o8 (blen image_bytes / 16777216));
                     entry_offset := 22 |}]) as -> by reflexivity.
  cbn [mbind option_bind mapM].
  rewrite (ico_entry_data_at pre image_bytes).
  - done.
  - reflexivity.
  - cbn [entry_bytes_len]. by apply le32_o32.
Qed.

(** What an ICO file written with success holds, for the one size the
    script asks for: no image, or the one frame with its data. *)
Lemma ico_save_256_images (px : pixels c) (sz : N * N) (written : bytes) :
  ico_save c px sz [(256, 256)%N] = (written, None) →
  (ico_frames c px sz [(256, 256)%N] = Some []
   ∧ ico_images written = Some [])
  ∨ (∃ fpx fsz image_bytes,
       ico_frames c px sz [(256, 256)%N] = Some [(fpx, fsz)]
       ∧ png_encode c fpx fsz = Some image_bytes
       ∧ ico_images written = Some [(ico_stored_size fsz, image_bytes)]).
Proof.
  destruct (ico_frames c px sz [(256, 256)%N]) as [[|[fpx fsz] [|f2 fs]]|] eqn:Hf.
  - rewrite (ico_save_nil _ _ _ Hf). intros [= <-]. by left.
  - rewrite (ico_save_one _ _ _ _ _ Hf).
    destruct (png_encode c fpx fsz) as [image_bytes|] eqn:Hp; [|done].
    destruct (4294967296 <=? blen image_bytes)%N eqn:Hlen; [done|].
    apply N.leb_gt in Hlen.
    intros Heq. apply (f_equal fst) in Heq. cbn [fst] in Heq. subst written.
    right. exists fpx, fsz, image_bytes.
    split; [done|]. split; [done|]. by apply ico_images_one.
  - pose proof (ico_frames_256_length px sz _ Hf) as Hl. simpl in Hl. lia.
  - unfold ico_save. by rewrite Hf.
Qed.

(** The directory lists the sizes of the images. *)
Lemma ico_directory_images (b : bytes) (images : list ((N * N) * bytes)) :
  ico_images b = Some images → ico_directory b = Some (images.*1).
Proof.
  unfold ico_images, ico_directory.
  destruct (ico_entries b) as [dir|]; [|done]. cbn [mbind option_bind fmap option_fmap option_map].
  intros Hm. f_equal. revert images Hm.
  induction dir as [|e dir IH]; intros images Hm.
  - by injection Hm as <-.
  - cbn [mapM] in Hm.
    destruct (ico_entry_data b e) as [data|]; [|done].
    cbn [mbind option_bind] in Hm.
    destruct (mapM _ dir) as [rest|] eqn:Hr; [|done].
    cbn [mbind option_bind mret option_ret] in Hm. injection Hm as <-.
    cbn [map fmap list_fmap fst]. f_equal. by apply IH.
Qed.

End IcoFacts.

Example run_512x300 :
  let w := Sample.world_with (Sample.picture Byte.x50 512 300 Byte.x01 Byte.x00) in
  let '(r, w') := logo_coverter Sample.codec Sample.launch w in
  r = Ok tt
  ∧ (files w' !! "/home/u/app/logo.ico" ≫= ico_directory) = Some [(256, 150)%N].
Proof. vm_compute. repeat split. Qed.

Example run_not_an_image :
  let w := Sample.world_with [Byte.x00; Byte.x01; Byte.x02] in
  logo_coverter Sample.codec Sample.launch w
  = (Raise (UnidentifiedImageError "/home/u/app/logo.png"), w).
Proof. vm_compute. reflexivity. Qed.

Example run_truncated :
  let w := Sample.world_with (Sample.picture Byte.x50 256 256 Byte.x00 Byte.x00) in
  logo_coverter Sample.codec Sample.launch w
  = (Raise (OSError "image file is truncated"), w).
Proof. vm_compute. reflexivity. Qed.

(* ===================================================================== *)
(** * The properties of the conversion *)
(* ===================================================================== *)

(** C1 (as amended).  When a run completes without an error, the file at
    the output path is an ICO file that decodes to at most one image:
    none when the source image is narrower or shorter than 256 pixels,
    since the ICO writer skips a requested size that exceeds the source;
    exactly one otherwise, the PNG encoding of the source itself,
    announced as 256x256, when the source is 256x256, and the PNG encoding
    of the library's thumbnail of the source, announced with the size of
    that thumbnail, when the source is larger. *)
Theorem C1_ico_on_success (c : Codec) (l : Launch) (w w' : World) :
  logo_coverter c l w = (Ok tt, w') →
  ∃ data fmt sz px written images,
    files w !! png_path l = Some data
    ∧ identify c data = Some (fmt, sz)
    ∧ decode c data = Some px
    ∧ files w' !! ico_path l = Some written
    ∧ ico_images written = Some images
    ∧ ico_directory written = Some images.*1
    ∧ (length images ≤ 1)%nat
    ∧ ((sz.1 < 256 ∨ sz.2 < 256)%N → images = [])
    ∧ (sz = (256, 256)%N →
       ∃ image_bytes,
         png_encode c px sz = Some image_bytes
         ∧ images = [((256, 256)%N, image_bytes)])
    ∧ ((256 ≤ sz.1)%N → (256 ≤ sz.2)%N → sz ≠ (256, 256)%N →
       ∃ tpx tsz image_bytes,
         thumbnail c px sz (256, 256)%N = Some (tpx, tsz)
         ∧ png_encode c tpx tsz = Some image_bytes
         ∧ images = [(ico_stored_size tsz, image_bytes)]).
Proof.
  rewrite logo_coverter_outcome. unfold outcome.
  destruct (files w !! png_path l) as [data|] eqn:Hf; [|done].
  destruct (identify c data) as [[fmt sz]|] eqn:Hi; [|done].
  destruct (decode c data) as [px|] eqn:Hd; [|done].
  destruct (bool_decide (ico_path l ∈ read_only w)); [done|].
  destruct (ico_save c px sz [(256, 256)%N]) as [written [e|]] eqn:Hs; [done|].
  intros [= <-].
  assert (∀ a b : N, size_eqb (a, b) (256, 256)%N = true → (a, b) = (256, 256)%N)
    as Heqb.
  { intros a b [Ha Hb]%andb_prop. apply N.eqb_eq in Ha, Hb. simpl in *. by subst. }
  destruct (ico_save_256_images c px sz written Hs)
    as [[Hfr Him]|(fpx & fsz & image_bytes & Hfr & Hpng & Him)];
    rewrite ico_frames_256 in Hfr;
    pose proof (ico_directory_images written _ Him) as Hdir;
    eexists data, fmt, sz, px, written, _;
    (split_and!; [done | done | done | simpl; apply lookup_insert_eq
                 | exact Him | exact Hdir | simpl; lia | ..]).
  - done.
  - intros ->. done.
  - intros H1 H2 Hne. apply N.ltb_ge in H1, H2. rewrite H1, H2 in Hfr.
    simpl in Hfr. destruct sz as [a b].
    destruct (size_eqb (a, b) (256, 256)%N) eqn:He; [done|].
    by destruct (thumbnail c px (a, b) (256, 256)%N).
  - intros Hsmall.
    replace ((sz.1 <? 256)%N || (sz.2 <? 256)%N) with true in Hfr; [done|].
    symmetry. apply orb_true_iff.
    destruct Hsmall; [left | right]; by apply N.ltb_lt.
  - intros ->. injection Hfr as <- <-. by exists image_bytes.
  - intros H1 H2 Hne. apply N.ltb_ge in H1, H2. rewrite H1, H2 in Hfr.
    simpl in Hfr. destruct sz as [a b].
    destruct (size_eqb (a, b) (256, 256)%N) eqn:He.
    { exfalso. by apply Hne, Heqb. }
    destruct (thumbnail c px (a, b) (256, 256)%N) as [[tpx tsz]|]; [|done].
    injection Hfr as <- <-. by exists tpx, tsz, image_bytes.
Qed.

Lemma C1_ico_on_success_witness :
  ∃ data fmt sz px written images,
    files (Sample.world_with (Sample.picture Byte.x50 256 256 Byte.x01 Byte.x00))
      !! png_path Sample.launch = Some data
    ∧ identify Sample.codec data = Some (fmt, sz)
    ∧ decode Sample.codec data = Some px
    ∧ files (logo_coverter Sample.codec Sample.launch
               (Sample.world_with (Sample.picture Byte.x50 256 256 Byte.x01 Byte.x00))).2
        !! ico_path Sample.launch = Some written
    ∧ ico_images written = Some images
    ∧ ico_directory written = Some images.*1
    ∧ (length images ≤ 1)%nat
    ∧ ((sz.1 < 256 ∨ sz.2 < 256)%N → images = [])
    ∧ (sz = (256, 256)%N →
       ∃ image_bytes,
         png_encode Sample.codec px sz = Some image_bytes
         ∧ images = [((256, 256)%N, image_bytes)])
    ∧ ((256 ≤ sz.1)%N → (256 ≤ sz.2)%N → sz ≠ (256, 256)%N →
       ∃ tpx tsz image_bytes,
         thumbnail Sample.codec px sz (256, 256)%N = Some (tpx, tsz)
         ∧ png_encode Sample.codec tpx tsz = Some image_bytes
         ∧ images = [(ico_stored_size tsz, image_bytes)]).
Proof.
  apply (C1_ico_on_success Sample.codec Sample.launch).
  vm_compute. reflexivity.
Defined.

(** C1, as the specification states it, fails: a source image of 100x100
    pixels is converted without an error, and the ICO file written holds
    no image at all.  So it is not true that every run that completes
    leaves an ICO file with one image of 256x256 pixels. *)
Lemma C1_counterexample :
  (∃ w' written,
     logo_coverter Sample.codec Sample.launch
       (Sample.world_with (Sample.picture Byte.x50 100 100 Byte.x01 Byte.x00))
     = (Ok tt, w')
     ∧ files w' !! ico_path Sample.launch = Some written
     ∧ ico_images written = Some []
     ∧ ico_directory written = Some [])
  ∧ ¬ (∀ (c : Codec) (l : Launch) (w w' : World),
         logo_coverter c l w = (Ok tt, w') →
         ∃ b, files w' !! ico_path l = Some b
              ∧ ico_directory b = Some [(256, 256)%N]).
Proof.
  pose (w := Sample.world_with (Sample.picture Byte.x50 100 100 Byte.x01 Byte.x00)).
  split.
  - exists (logo_coverter Sample.codec Sample.launch w).2, (_MAGIC ++ o16 0).
    vm_compute. done.
  - intros H.
    destruct (H Sample.codec Sample.launch w (logo_coverter Sample.codec Sample.launch w).2)
      as (b & Hb & Hdir).
    { vm_compute. reflexivity. }
    vm_compute in Hb. injection Hb as <-. vm_compute in Hdir. discriminate.
Qed.

(** C2.  When the file at the input path exists but cannot be decoded --
    no format plugin identifies it, or its pixel data is truncated -- the
    run ends with the library's exception and the world is the one it
    started in: nothing is written at the output path, and a file that
    was there keeps its bytes. *)
Theorem C2_undecodable_input (c : Codec) (l : Launch) (w : World) (data : bytes) :
  files w !! png_path l = Some data →
  identify c data = None ∨ decode c data = None →
  logo_coverter c l w
  = (Raise (match identify c data with
            | None => UnidentifiedImageError (png_path l)
            | Some _ => OSError "image file is truncated"
            end), w).
Proof.
  intros Hf Hbad. rewrite logo_coverter_outcome. unfold outcome. rewrite Hf.
  destruct (identify c data) as [[fmt sz]|]; [|done].
  destruct Hbad as [?| ->]; done.
Qed.

Lemma C2_undecodable_input_witness :
  logo_coverter Sample.codec Sample.launch
    (Sample.world_with_ico (Sample.picture Byte.x50 256 256 Byte.x00 Byte.x00)
                           [Byte.x00; Byte.x00; Byte.x01; Byte.x00; Byte.x00; Byte.x00])
  = (Raise (OSError "image file is truncated"),
     Sample.world_with_ico (Sample.picture Byte.x50 256 256 Byte.x00 Byte.x00)
                           [Byte.x00; Byte.x00; Byte.x01; Byte.x00; Byte.x00; Byte.x00]).
Proof.
  apply (C2_undecodable_input Sample.codec Sample.launch
           (Sample.world_with_ico
              (Sample.picture Byte.x50 256 256 Byte.x00 Byte.x00)
              [Byte.x00; Byte.x00; Byte.x01; Byte.x00; Byte.x00; Byte.x00])
           (Sample.picture Byte.x50 256 256 Byte.x00 Byte.x00)).
  - vm_compute. reflexivity.
  - right. vm_compute. reflexivity.
Defined.

(** C3.  When no file exists at the input path the run ends with
    [FileNotFoundError] in the world it started in: no file is created at
    the output path and nothing is printed. *)
Theorem C3_missing_input (c : Codec) (l : Launch) (w : World) :
  files w !! png_path l = None →
  logo_coverter c l w = (Raise (FileNotFoundError (png_path l)), w)
  ∧ files (logo_coverter c l w).2 !! ico_path l = files w !! ico_path l
  ∧ stdout (logo_coverter c l w).2 = stdout w.
Proof.
  intros Hf.
  assert (logo_coverter c l w = (Raise (FileNotFoundError (png_path l)), w)) as ->.
  { rewrite logo_coverter_outcome. unfold outcome. by rewrite Hf. }
  done.
Qed.

Lemma C3_missing_input_witness :
  logo_coverter Sample.codec Sample.launch Sample.empty_world
  = (Raise (FileNotFoundError (png_path Sample.launch)), Sample.empty_world)
  ∧ files (logo_coverter Sample.codec Sample.launch Sample.empty_world).2 !! ico_path Sample.launch
    = files Sample.empty_world !! ico_path Sample.launch
  ∧ stdout (logo_coverter Sample.codec Sample.launch Sample.empty_world).2
    = stdout Sample.empty_world.
Proof.
  apply (C3_missing_input Sample.codec Sample.launch Sample.empty_world).
  vm_compute. reflexivity.
Defined.

(** C4.  The current directory of the process being absolute, as
    [os.getcwd()] gives it: the input path is the directory of the
    absolute path of the script joined with [logo.png], the output path is
    that directory joined with [logo.ico]; both are absolute, both lie in
    that directory under these two names; and they are the same for every
    launch that resolves to the same script, so for an absolute
    [__file__] whatever the current directory is. *)
Theorem C4_paths_next_to_script (l : Launch) :
  os_path.isabs (getcwd l) = true →
  current_dir l = os_path.dirname (os_path.abspath (getcwd l) (script_file l))
  ∧ os_path.isabs (current_dir l) = true
  ∧ png_path l = os_path.join (current_dir l) "logo.png"
  ∧ ico_path l = os_path.join (current_dir l) "logo.ico"
  ∧ os_path.isabs (png_path l) = true
  ∧ os_path.isabs (ico_path l) = true
  ∧ os_path.dirname (png_path l) = current_dir l
  ∧ os_path.basename (png_path l) = "logo.png"
  ∧ os_path.dirname (ico_path l) = current_dir l
  ∧ os_path.basename (ico_path l) = "logo.ico"
  ∧ (∀ l', os_path.abspath (getcwd l') (script_file l')
             = os_path.abspath (getcwd l) (script_file l) →
           png_path l' = png_path l ∧ ico_path l' = ico_path l)
  ∧ (os_path.isabs (script_file l) = true →
     ∀ cwd', png_path {| script_file := script_file l; getcwd := cwd' |} = png_path l
             ∧ ico_path {| script_file := script_file l; getcwd := cwd' |} = ico_path l).
Proof.
  intros Hcwd.
  assert (os_path.isabs (current_dir l) = true) as Hdir.
  { unfold current_dir. by apply isabs_dirname, isabs_abspath. }
  unfold png_path, ico_path. rewrite ico_name. unfold file_name.
  split_and!; try done.
  - by apply isabs_join.
  - by apply isabs_join.
  - unfold current_dir. by apply dirname_join.
  - by apply basename_join.
  - unfold current_dir. by apply dirname_join.
  - by apply basename_join.
  - intros l' Hl'. unfold current_dir. by rewrite Hl'.
  - intros Habs cwd'. unfold current_dir, os_path.abspath. simpl.
    by rewrite Habs.
Qed.

Lemma C4_paths_next_to_script_witness :
  png_path {| script_file := "tools/../app/logo_coverter.py"; getcwd := "/home/u" |}
  = os_path.join "/home/u/app" "logo.png"
  ∧ ico_path {| script_file := "tools/../app/logo_coverter.py"; getcwd := "/home/u" |}
    = os_path.join "/home/u/app" "logo.ico".
Proof.
  pose proof (C4_paths_next_to_script
                {| script_file := "tools/../app/logo_coverter.py"; getcwd := "/home/u" |}
                eq_refl) as (_ & _ & Hpng & Hico & _).
  split; [exact Hpng | exact Hico].
Defined.

(** C5.  A run that completes without an error has added to standard
    output the line [Converted 'logo.png' to ICO format at '<P>'] and
    nothing else, where [<P>] is the output path: the file written is
    there, and the path is absolute when the current directory is. *)
Theorem C5_confirmation_line (c : Codec) (l : Launch) (w w' : World) :
  logo_coverter c l w = (Ok tt, w') →
  stdout w'
  = stdout w +:+ "Converted 'logo.png' to ICO format at '" +:+ ico_path l +:+ "'"
      +:+ newline
  ∧ is_Some (files w' !! ico_path l)
  ∧ (os_path.isabs (getcwd l) = true → os_path.isabs (ico_path l) = true).
Proof.
  intros Hrun. split_and!.
  - pose proof (outcome_stdout c l w) as Hout.
    rewrite <- logo_coverter_outcome, Hrun in Hout. simpl in Hout.
    rewrite Hout. unfold message. by rewrite !str_app_assoc.
  - revert Hrun. rewrite logo_coverter_outcome. unfold outcome.
    repeat case_match; try done. intros [= <-]. simpl.
    rewrite lookup_insert_eq. by eexists.
  - intros Hcwd. unfold ico_path, current_dir.
    by apply isabs_join, isabs_dirname, isabs_abspath.
Qed.

Lemma C5_confirmation_line_witness :
  stdout (logo_coverter Sample.codec Sample.launch
            (Sample.world_with (Sample.picture Byte.x50 256 256 Byte.x01 Byte.x00))).2
  = "Converted 'logo.png' to ICO format at '/home/u/app/logo.ico'" +:+ newline.
Proof.
  apply (C5_confirmation_line Sample.codec Sample.launch
           (Sample.world_with (Sample.picture Byte.x50 256 256 Byte.x01 Byte.x00))).
  vm_compute. reflexivity.
Defined.

(** C6.  After a run that completed without an error, a second run on the
    unchanged input completes too and leaves every file as the first run
    left it, the output file byte for byte; and any run that completes on
    the same input bytes writes the same output bytes. *)
Theorem C6_rerun_identical (c : Codec) (l : Launch) (w w1 : World) :
  logo_coverter c l w = (Ok tt, w1) →
  (∃ w2, logo_coverter c l w1 = (Ok tt, w2) ∧ files w2 = files w1)
  ∧ (∀ v v1, files v !! png_path l = files w !! png_path l →
             logo_coverter c l v = (Ok tt, v1) →
             files v1 !! ico_path l = files w1 !! ico_path l).
Proof.
  rewrite logo_coverter_outcome. unfold outcome.
  destruct (files w !! png_path l) as [data|] eqn:Hf; [|done].
  destruct (identify c data) as [[fmt sz]|] eqn:Hi; [|done].
  destruct (decode c data) as [px|] eqn:Hd; [|done].
  destruct (bool_decide (ico_path l ∈ read_only w)) eqn:Hro; [done|].
  destruct (ico_save c px sz [(256, 256)%N]) as [written [e|]] eqn:Hs; [done|].
  intros [= <-]. split.
  - eexists. rewrite logo_coverter_outcome. unfold outcome. simpl.
    rewrite lookup_insert_ne by (symmetry; apply png_path_ne_ico_path).
    rewrite Hf, Hi, Hd, Hro, Hs. split; [done|]. simpl.
    apply insert_insert_eq.
  - intros v v1 Hv. rewrite logo_coverter_outcome. unfold outcome.
    rewrite Hv, Hi, Hd.
    destruct (bool_decide (ico_path l ∈ read_only v)); [done|].
    rewrite Hs. intros [= <-]. simpl. by rewrite !lookup_insert_eq.
Qed.

Lemma C6_rerun_identical_witness :
  (∃ w2, logo_coverter Sample.codec Sample.launch
           (logo_coverter Sample.codec Sample.launch
              (Sample.world_with (Sample.picture Byte.x50 512 300 Byte.x01 Byte.x00))).2
         = (Ok tt, w2)
         ∧ files w2
           = files (logo_coverter Sample.codec Sample.launch
                      (Sample.world_with (Sample.picture Byte.x50 512 300 Byte.x01 Byte.x00))).2).
Proof.
  apply (C6_rerun_identical Sample.codec Sample.launch
           (Sample.world_with (Sample.picture Byte.x50 512 300 Byte.x01 Byte.x00))).
  vm_compute. reflexivity.
Defined.

(** C7.  The image file is opened by the [with] statement, and every run,
    however it ends, leaves the table of open file descriptors as it found
    it: whenever [Image.open] returned an image, the descriptor it holds
    was open in the body and is closed once the statement is left, whether
    [save] returned or raised. *)
Theorem C7_input_handle_released (c : Codec) (l : Launch) (w : World) :
  open_fds (logo_coverter c l w).2 = open_fds w
  ∧ (∀ img w1,
       Image_open c (png_path l) w = (Ok img, w1) →
       open_fds w1 !! fileno (im_fp img) = Some (png_path l)
       ∧ open_fds (logo_coverter c l w).2 !! fileno (im_fp img) = None).
Proof.
  assert (open_fds (logo_coverter c l w).2 = open_fds w) as Hfds.
  { rewrite logo_coverter_outcome. apply outcome_open_fds. }
  split; [done|]. intros img w1. rewrite Image_open_eq, Hfds.
  destruct (files w !! png_path l) as [data|]; [|done].
  destruct (identify c data) as [[fmt sz]|]; [|done].
  intros [= <- <-]. simpl. split.
  - apply lookup_insert_eq.
  - apply not_elem_of_dom, is_fresh.
Qed.

Lemma C7_input_handle_released_witness :
  open_fds (logo_coverter Sample.codec Sample.launch
              (Sample.world_with (Sample.picture Byte.x50 256 256 Byte.x01 Byte.xff))).2
  = ∅.
Proof.
  apply (C7_input_handle_released Sample.codec Sample.launch
           (Sample.world_with (Sample.picture Byte.x50 256 256 Byte.x01 Byte.xff))).
Defined.

(** The same from the [with] statement alone: what the body does, and
    however it ends, the file of the image is closed afterwards. *)
Lemma with_image_closes (mgr : Py Image) (body : Image → Py unit)
    (w w1 : World) (img : Image) :
  mgr w = (Ok img, w1) →
  open_fds (with_as mgr Image_exit body w).2
  = delete (fileno (im_fp img)) (open_fds (body img w1).2).
Proof.
  intros Hm. unfold with_as. rewrite Hm.
  destruct (body img w1) as [[[]|e] w2]; done.
Qed.

(** C8.  No exception is handled in the script: one raised by
    [Image.open], or by [save] inside the [with] block, is the outcome of
    the run -- [FileNotFoundError] for a missing source,
    [UnidentifiedImageError] or [OSError] for a source that cannot be
    decoded, [PermissionError] for a destination that is not writable --
    and a run that ends with an exception has printed nothing. *)
Theorem C8_errors_propagate (c : Codec) (l : Launch) (w : World) :
  (∀ e w1, Image_open c (png_path l) w = (Raise e, w1) →
           (logo_coverter c l w).1 = Raise e)
  ∧ (∀ img w1 e w2,
       Image_open c (png_path l) w = (Ok img, w1) →
       Image_save c img (ico_path l) "ICO" [(256, 256)%N] w1 = (Raise e, w2) →
       (logo_coverter c l w).1 = Raise e)
  ∧ (files w !! png_path l = None →
     (logo_coverter c l w).1 = Raise (FileNotFoundError (png_path l)))
  ∧ (∀ data, files w !! png_path l = Some data → identify c data = None →
     (logo_coverter c l w).1 = Raise (UnidentifiedImageError (png_path l)))
  ∧ (∀ data, files w !! png_path l = Some data → identify c data ≠ None →
     decode c data = None →
     (logo_coverter c l w).1 = Raise (OSError "image file is truncated"))
  ∧ (∀ data, files w !! png_path l = Some data → identify c data ≠ None →
     decode c data ≠ None → ico_path l ∈ read_only w →
     (logo_coverter c l w).1 = Raise (PermissionError (ico_path l)))
  ∧ (∀ e, (logo_coverter c l w).1 = Raise e →
          stdout (logo_coverter c l w).2 = stdout w).
Proof.
  split_and!.
  - intros e w1 Ho. unfold logo_coverter, bind, with_as. by rewrite Ho.
  - intros img w1 e w2 Ho Hs. unfold logo_coverter, bind, with_as.
    by rewrite Ho, Hs.
  - intros Hf. rewrite logo_coverter_outcome. unfold outcome. by rewrite Hf.
  - intros data Hf Hi. rewrite logo_coverter_outcome. unfold outcome.
    by rewrite Hf, Hi.
  - intros data Hf Hi Hd. rewrite logo_coverter_outcome. unfold outcome.
    rewrite Hf, Hd. by destruct (identify c data) as [[fmt sz]|].
  - intros data Hf Hi Hd Hro. rewrite logo_coverter_outcome. unfold outcome.
    rewrite Hf. destruct (identify c data) as [[fmt sz]|]; [|done].
    destruct (decode c data) as [px|]; [|done].
    by rewrite bool_decide_eq_true_2.
  - intros e He. pose proof (outcome_stdout c l w) as Hout.
    rewrite <- logo_coverter_outcome, He in Hout. done.
Qed.

Lemma C8_errors_propagate_witness :
  (logo_coverter Sample.codec Sample.launch Sample.empty_world).1
  = Raise (FileNotFoundError "/home/u/app/logo.png").
Proof.
  pose proof (C8_errors_propagate Sample.codec Sample.launch Sample.empty_world)
    as (_ & _ & Hmissing & _).
  apply Hmissing. vm_compute. reflexivity.
Defined.

(** C9.  A run changes nothing but the file at the output path and
    standard output: every other path keeps its content or its absence,
    the input file among them; the permissions and the open descriptors
    are as before; standard output gains the confirmation line when the
    run completes, and nothing when it does not. *)
Theorem C9_only_output_and_stdout (c : Codec) (l : Launch) (w : World) :
  (∀ p, p ≠ ico_path l → files (logo_coverter c l w).2 !! p = files w !! p)
  ∧ files (logo_coverter c l w).2 !! png_path l = files w !! png_path l
  ∧ read_only (logo_coverter c l w).2 = read_only w
  ∧ open_fds (logo_coverter c l w).2 = open_fds w
  ∧ stdout (logo_coverter c l w).2
    = match (logo_coverter c l w).1 with
      | Ok _ => stdout w +:+ message l +:+ newline
      | Raise _ => stdout w
      end.
Proof.
  rewrite logo_coverter_outcome. split_and!.
  - intros p Hp. by apply outcome_files_frame.
  - apply outcome_files_frame, png_path_ne_ico_path.
  - apply outcome_read_only.
  - apply outcome_open_fds.
  - apply outcome_stdout.
Qed.

Lemma C9_only_output_and_stdout_witness :
  files (logo_coverter Sample.codec Sample.launch
           (Sample.world_with (Sample.picture Byte.x50 256 256 Byte.x01 Byte.x00))).2
    !! png_path Sample.launch
  = Some (Sample.picture Byte.x50 256 256 Byte.x01 Byte.x00).
Proof.
  pose proof (C9_only_output_and_stdout Sample.codec Sample.launch
                (Sample.world_with (Sample.picture Byte.x50 256 256 Byte.x01 Byte.x00)))
    as (_ & Hpng & _).
  rewrite Hpng. vm_compute. reflexivity.
Defined.

(** C10 (as amended).  The format that the library identified is never
    looked at: for a file at the input path of any format that the
    library identifies and decodes, the run completes exactly when the
    destination is writable and the ICO writer can scale and encode the
    decoded pixels, and the output path then holds what the ICO writer
    produced. *)
Theorem C10_any_decodable_format (c : Codec) (l : Launch) (w : World)
    (data : bytes) (fmt : string) (sz : N * N) (px : pixels c) :
  files w !! png_path l = Some data →
  identify c data = Some (fmt, sz) →
  decode c data = Some px →
  ((logo_coverter c l w).1 = Ok tt
   ↔ (ico_path l ∉ read_only w) ∧ (ico_save c px sz [(256, 256)%N]).2 = None)
  ∧ ((logo_coverter c l w).1 = Ok tt →
     files (logo_coverter c l w).2 !! ico_path l
     = Some (ico_save c px sz [(256, 256)%N]).1).
Proof.
  intros Hf Hi Hd. rewrite logo_coverter_outcome. unfold outcome.
  rewrite Hf, Hi, Hd.
  destruct (bool_decide (ico_path l ∈ read_only w)) eqn:Hro.
  { apply bool_decide_eq_true in Hro. simpl. split; [|done].
    split; [done | by intros [? _]]. }
  apply bool_decide_eq_false in Hro.
  destruct (ico_save c px sz [(256, 256)%N]) as [written [e|]]; simpl.
  - split; [|done]. split; [done | by intros [_ ?]].
  - split; [done|]. intros _. apply lookup_insert_eq.
Qed.

Lemma C10_any_decodable_format_witness :
  (logo_coverter Sample.codec Sample.launch
     (Sample.world_with (Sample.picture Byte.x4a 300 256 Byte.x01 Byte.x00))).1 = Ok tt
  ∧ files (logo_coverter Sample.codec Sample.launch
             (Sample.world_with (Sample.picture Byte.x4a 300 256 Byte.x01 Byte.x00))).2
      !! ico_path Sample.launch
    = Some (ico_save Sample.codec [Byte.x00; Byte.x2a] (300, 256)%N [(256, 256)%N]).1.
Proof.
  destruct (C10_any_decodable_format Sample.codec Sample.launch
              (Sample.world_with (Sample.picture Byte.x4a 300 256 Byte.x01 Byte.x00))
              (Sample.picture Byte.x4a 300 256 Byte.x01 Byte.x00) "JPEG"
              (300, 256)%N [Byte.x00; Byte.x2a]) as [Hiff Hfile].
  - vm_compute. reflexivity.
  - vm_compute. reflexivity.
  - vm_compute. reflexivity.
  - assert ((logo_coverter Sample.codec Sample.launch
               (Sample.world_with (Sample.picture Byte.x4a 300 256 Byte.x01 Byte.x00))).1
            = Ok tt) as Hok.
    { apply Hiff. split.
      + intros H. vm_compute in H. discriminate H.
      + vm_compute. reflexivity. }
    split; [exact Hok | exact (Hfile Hok)].
Defined.

(** C10, as stated, fails: a JPEG of 256x256 pixels whose pixel mode PNG
    cannot hold is identified and decoded by the library, the destination
    is writable, and the run ends with the exception of the ICO writer,
    no file being left at the output path.  So it is not true that the
    conversion completes for every file that the library decodes. *)
Lemma C10_counterexample :
  (identify Sample.codec (Sample.picture Byte.x4a 256 256 Byte.x01 Byte.xff)
   = Some ("JPEG", (256, 256)%N)
   ∧ decode Sample.codec (Sample.picture Byte.x4a 256 256 Byte.x01 Byte.xff)
     = Some [Byte.xff; Byte.x2a]
   ∧ logo_coverter Sample.codec Sample.launch
       (Sample.world_with (Sample.picture Byte.x4a 256 256 Byte.x01 Byte.xff))
     = (Raise (OSError "cannot write mode as PNG"),
        Sample.world_with (Sample.picture Byte.x4a 256 256 Byte.x01 Byte.xff)))
  ∧ ¬ (∀ (c : Codec) (l : Launch) (w : World) (data : bytes) (fmt : string)
         (sz : N * N) (px : pixels c),
         files w !! png_path l = Some data →
         identify c data = Some (fmt, sz) →
         decode c data = Some px →
         (logo_coverter c l w).1 = Ok tt).
Proof.
  split.
  - split_and!; vm_compute; reflexivity.
  - intros H.
    specialize (H Sample.codec Sample.launch
                  (Sample.world_with (Sample.picture Byte.x4a 256 256 Byte.x01 Byte.xff))
                  (Sample.picture Byte.x4a 256 256 Byte.x01 Byte.xff) "JPEG"
                  (256, 256)%N [Byte.xff; Byte.x2a]
                  ltac:(vm_compute; reflexivity) ltac:(vm_compute; reflexivity)
                  ltac:(vm_compute; reflexivity)).
    vm_compute in H. discriminate H.
Qed.

(* ===================================================================== *)
(** * Further properties of the run *)
(* ===================================================================== *)

(** What is in the file when the ICO writer raises, for the one size the
    script asks for, has no readable directory. *)
Lemma ico_save_256_failed (c : Codec) (px : pixels c) (sz : N * N)
    (written : bytes) (e : exn) :
  ico_save c px sz [(256, 256)%N] = (written, Some e) →
  ico_entries written = None.
Proof.
  destruct (ico_frames c px sz [(256, 256)%N]) as [[|[fpx fsz] [|f2 fs]]|] eqn:Hf.
  - by rewrite (ico_save_nil _ _ _ _ Hf).
  - rewrite (ico_save_one _ _ _ _ _ _ Hf).
    destruct (png_encode c fpx fsz) as [image_bytes|].
    + destruct (4294967296 <=? blen image_bytes)%N; [|done].
      intros Heq. apply (f_equal fst) in Heq. cbn [fst] in Heq. by subst written.
    + intros Heq. apply (f_equal fst) in Heq. cbn [fst] in Heq. by subst written.
  - pose proof (ico_frames_256_length c px sz _ Hf) as Hl. simpl in Hl. lia.
  - unfold ico_save. rewrite Hf. intros Heq.
    apply (f_equal fst) in Heq. cbn [fst] in Heq. by subst written.
Qed.

(** X1.  When the source decodes but the destination cannot be opened for
    writing, the run ends with [PermissionError] on the output path in
    the world it started in: no file is touched, the input is closed
    again, nothing is printed. *)
Theorem X1_unwritable_destination (c : Codec) (l : Launch) (w : World)
    (data : bytes) (fmt : string) (sz : N * N) (px : pixels c) :
  files w !! png_path l = Some data →
  identify c data = Some (fmt, sz) →
  decode c data = Some px →
  ico_path l ∈ read_only w →
  logo_coverter c l w = (Raise (PermissionError (ico_path l)), w).
Proof.
  intros Hf Hi Hd Hro. rewrite logo_coverter_outcome. unfold outcome.
  by rewrite Hf, Hi, Hd, bool_decide_eq_true_2.
Qed.

Lemma X1_unwritable_destination_witness :
  logo_coverter Sample.codec Sample.launch
    {| files := {[ "/home/u/app/logo.png"
                   := Sample.picture Byte.x50 256 256 Byte.x01 Byte.x00 ]};
       read_only := {[ "/home/u/app/logo.ico" ]}; open_fds := ∅; stdout := "" |}
  = (Raise (PermissionError "/home/u/app/logo.ico"),
     {| files := {[ "/home/u/app/logo.png"
                    := Sample.picture Byte.x50 256 256 Byte.x01 Byte.x00 ]};
        read_only := {[ "/home/u/app/logo.ico" ]}; open_fds := ∅; stdout := "" |}).
Proof.
  apply (X1_unwritable_destination Sample.codec Sample.launch _
           (Sample.picture Byte.x50 256 256 Byte.x01 Byte.x00) "PNG"
           (256, 256)%N [Byte.x00; Byte.x2a]).
  - vm_compute. reflexivity.
  - vm_compute. reflexivity.
  - vm_compute. reflexivity.
  - vm_compute. reflexivity.
Defined.

(** X2.  When the ICO writer raises after the destination was opened, the
    run ends with that exception and prints nothing.  A destination that
    did not exist is removed again, so the world is as before; a
    destination that existed has lost its content: it holds what the
    writer had written, which is no readable ICO file. *)
Theorem X2_failed_write (c : Codec) (l : Launch) (w : World)
    (data : bytes) (fmt : string) (sz : N * N) (px : pixels c)
    (written : bytes) (e : exn) :
  files w !! png_path l = Some data →
  identify c data = Some (fmt, sz) →
  decode c data = Some px →
  ico_path l ∉ read_only w →
  ico_save c px sz [(256, 256)%N] = (written, Some e) →
  (logo_coverter c l w).1 = Raise e
  ∧ (files w !! ico_path l = None → (logo_coverter c l w).2 = w)
  ∧ (∀ old, files w !! ico_path l = Some old →
       (logo_coverter c l w).2 = set_files <[ico_path l := written]> w)
  ∧ ico_images written = None
  ∧ ico_directory written = None.
Proof.
  intros Hf Hi Hd Hro Hs. rewrite logo_coverter_outcome. unfold outcome.
  rewrite Hf, Hi, Hd, bool_decide_eq_false_2, Hs by done. cbn [fst snd].
  pose proof (ico_save_256_failed c px sz written e Hs) as Hent.
  split_and!.
  - done.
  - intros Hnone. by rewrite bool_decide_eq_true_2.
  - intros old Hold. rewrite bool_decide_eq_false_2; [done|]. by rewrite Hold.
  - unfold ico_images. by rewrite Hent.
  - unfold ico_directory. by rewrite Hent.
Qed.

Lemma X2_failed_write_witness :
  (logo_coverter Sample.codec Sample.launch
     (Sample.world_with_ico
        (Sample.picture Byte.x50 256 256 Byte.x01 Byte.xff)
        [Byte.x00; Byte.x00; Byte.x01; Byte.x00; Byte.x00; Byte.x00])).1
  = Raise (OSError "cannot write mode as PNG")
  ∧ files (logo_coverter Sample.codec Sample.launch
             (Sample.world_with_ico
                (Sample.picture Byte.x50 256 256 Byte.x01 Byte.xff)
                [Byte.x00; Byte.x00; Byte.x01; Byte.x00; Byte.x00; Byte.x00])).2
      !! "/home/u/app/logo.ico"
    = Some (_MAGIC ++ o16 1 ++ ico_entry_head (256, 256)%N).
Proof.
  destruct (X2_failed_write Sample.codec Sample.launch
              (Sample.world_with_ico
                 (Sample.picture Byte.x50 256 256 Byte.x01 Byte.xff)
                 [Byte.x00; Byte.x00; Byte.x01; Byte.x00; Byte.x00; Byte.x00])
              (Sample.picture Byte.x50 256 256 Byte.x01 Byte.xff) "PNG"
              (256, 256)%N [Byte.xff; Byte.x2a]
              (_MAGIC ++ o16 1 ++ ico_entry_head (256, 256)%N)
              (OSError "cannot write mode as PNG"))
    as (Hr & _ & Hold & _).
  - vm_compute. reflexivity.
  - vm_compute. reflexivity.
  - vm_compute. reflexivity.
  - intros H. vm_compute in H. discriminate H.
  - vm_compute. reflexivity.
  - split; [exact Hr|].
    rewrite (Hold [Byte.x00; Byte.x00; Byte.x01; Byte.x00; Byte.x00; Byte.x00]).
    + vm_compute. reflexivity.
    + vm_compute. reflexivity.
Defined.

(** X3.  Whether a run completes, and with which exception it ends
    otherwise, depends on the world only through the bytes of the input
    file and the writability of the output path; and a run that completes
    writes bytes that depend on the input bytes alone.  Other files, a
    file already at the output path, open descriptors and earlier output
    play no part. *)
Theorem X3_outcome_depends_on_input_only (c : Codec) (l : Launch) (w1 w2 : World) :
  files w1 !! png_path l = files w2 !! png_path l →
  (ico_path l ∈ read_only w1 ↔ ico_path l ∈ read_only w2) →
  (logo_coverter c l w1).1 = (logo_coverter c l w2).1
  ∧ ((logo_coverter c l w1).1 = Ok tt →
     files (logo_coverter c l w1).2 !! ico_path l
     = files (logo_coverter c l w2).2 !! ico_path l).
Proof.
  intros Hf Hro. rewrite !logo_coverter_outcome. unfold outcome.
  rewrite Hf, (bool_decide_ext _ _ Hro).
  destruct (files w2 !! png_path l) as [data|]; [|done].
  destruct (identify c data) as [[fmt sz]|]; [|done].
  destruct (decode c data) as [px|]; [|done].
  destruct (bool_decide (ico_path l ∈ read_only w2)); [done|].
  destruct (ico_save c px sz [(256, 256)%N]) as [written [e|]]; [done|].
  split; [done|]. intros _. simpl. by rewrite !lookup_insert_eq.
Qed.

Lemma X3_outcome_depends_on_input_only_witness :
  (logo_coverter Sample.codec Sample.launch
     (Sample.world_with (Sample.picture Byte.x50 512 300 Byte.x01 Byte.x00))).1
  = (logo_coverter Sample.codec Sample.launch
       (Sample.world_with_ico (Sample.picture Byte.x50 512 300 Byte.x01 Byte.x00)
                              [Byte.x2a])).1.
Proof.
  apply (X3_outcome_depends_on_input_only Sample.codec Sample.launch
           (Sample.world_with (Sample.picture Byte.x50 512 300 Byte.x01 Byte.x00))
           (Sample.world_with_ico (Sample.picture Byte.x50 512 300 Byte.x01 Byte.x00)
                                  [Byte.x2a])).
  - vm_compute. reflexivity.
  - split; intros H; vm_compute in H; discriminate H.
Defined.

(* ===================================================================== *)
(** * Further properties of the paths *)
(* ===================================================================== *)

Section MoreStringFacts.

Variable c : ascii.

Lemma str_app_nil_r (s : string) : s +:+ "" = s.
Proof. induction s as [|a s IH]; simpl; [done | by rewrite IH]. Qed.

Lemma str_take_drop (n : nat) (s : string) :
  PyStr.take n s +:+ PyStr.drop n s = s.
Proof.
  revert s. induction n as [|n IH]; intros [|a s]; simpl; try done.
  by rewrite IH.
Qed.

Lemma str_take_app_add (h s : string) (n : nat) :
  PyStr.take (String.length h + n) (h +:+ s) = h +:+ PyStr.take n s.
Proof. induction h as [|a h IH]; simpl; [done | by rewrite IH]. Qed.

Lemma str_drop_app_add (h s : string) (n : nat) :
  PyStr.drop (String.length h + n) (h +:+ s) = PyStr.drop n s.
Proof. induction h as [|a h IH]; simpl; done. Qed.

Lemma str_get_app_length (h s : string) :
  PyStr.get (String.length h) (h +:+ s) = PyStr.get 0 s.
Proof. induction h as [|a h IH]; simpl; [by destruct s | done]. Qed.

Lemma str_drop_get (k : nat) (s : string) (a : ascii) :
  PyStr.get k s = Some a → PyStr.drop k s = String a (PyStr.drop (S k) s).
Proof.
  revert s. induction k as [|k IH]; intros [|b s]; simpl; try done.
  - by intros [= ->].
  - intros H. by rewrite (IH s H).
Qed.

Lemma free_of_drop (n : nat) (s : string) :
  PyStr.free_of c s = true → PyStr.free_of c (PyStr.drop n s) = true.
Proof.
  revert s. induction n as [|n IH]; intros [|a s]; simpl; try done.
  intros [_ H]%andb_prop. by apply IH.
Qed.

Lemma str_drop_drop (n m : nat) (s : string) :
  PyStr.drop n (PyStr.drop m s) = PyStr.drop (m + n) s.
Proof.
  revert s. induction m as [|m IH]; intros s; simpl; [done|].
  destruct s as [|a s]; [by destruct n | by rewrite IH].
Qed.

(** What [rfind] returns: the accumulator when [c] does not occur, and
    otherwise the place of an occurrence of [c] after which there is no
    other. *)
Lemma rfind_from_spec (s : string) (i last : Z) :
  (PyStr.rfind_from c s i last = last ∧ PyStr.free_of c s = true)
  ∨ (∃ k : nat,
       PyStr.rfind_from c s i last = i + Z.of_nat k
       ∧ PyStr.get k s = Some c
       ∧ PyStr.free_of c (PyStr.drop (S k) s) = true).
Proof.
  revert i last. induction s as [|a s IH]; intros i last; simpl; [by left|].
  destruct (IH (i + 1) (if Ascii.eqb a c then i else last))
    as [[Hr Hfree]|(k & Hr & Hget & Hfree)].
  - destruct (Ascii.eqb a c) eqn:Ha.
    + right. exists 0%nat. apply Ascii.eqb_eq in Ha. subst a.
      split; [lia|]. split; [done|]. by destruct s.
    + left. by rewrite Hr, Hfree.
  - right. exists (S k). split; [lia|]. done.
Qed.

Lemma rfind_spec (s : string) :
  (PyStr.rfind c s = -1 ∧ PyStr.free_of c s = true)
  ∨ (∃ k : nat,
       PyStr.rfind c s = Z.of_nat k
       ∧ PyStr.get k s = Some c
       ∧ PyStr.free_of c (PyStr.drop (S k) s) = true).
Proof.
  unfold PyStr.rfind. destruct (rfind_from_spec s 0 (-1)) as [?|(k & ? & ?)];
    [by left | right; exists k; by rewrite Z.add_0_l in *].
Qed.

End MoreStringFacts.

(** X4.  [os.path.splitext], as the script calls it to build the name of
    the output: the two parts put together give the path back; the
    extension is empty, or a dot followed by characters among which there
    is neither a dot nor a separator. *)
Theorem X4_splitext_parts (p : string) :
  (os_path.splitext p).1 +:+ (os_path.splitext p).2 = p
  ∧ ((os_path.splitext p).2 = ""
     ∨ ∃ rest, (os_path.splitext p).2 = String os_path.extsep rest
               ∧ PyStr.free_of os_path.extsep rest = true
               ∧ PyStr.free_of os_path.sep rest = true).
Proof.
  unfold os_path.splitext.
  destruct ((PyStr.rfind os_path.sep p <? PyStr.rfind os_path.extsep p)
            && os_path.splitext_loop p _ _) eqn:Hc; cbn [fst snd].
  2:{ split; [apply str_app_nil_r | by left]. }
  apply andb_prop in Hc as [Hlt _]. apply Z.ltb_lt in Hlt.
  split; [apply str_take_drop|]. right.
  destruct (rfind_spec os_path.extsep p) as [[Hd _]|(k & Hd & Hget & Hfree)].
  { destruct (rfind_spec os_path.sep p) as [[Hs _]|(j & Hs & _)]; lia. }
  rewrite Hd, Nat2Z.id. rewrite (str_drop_get k p _ Hget).
  exists (PyStr.drop (S k) p). split; [done|]. split; [done|].
  destruct (rfind_spec os_path.sep p) as [[_ Hs]|(j & Hs & _ & Hsfree)].
  - by apply free_of_drop.
  - assert (j < k)%nat as Hjk by lia.
    replace (S k) with (S j + (k - j))%nat by lia.
    rewrite <- str_drop_drop. by apply free_of_drop.
Qed.

(** What [join] puts before a name without separator depends on the
    directory alone, and the last separator of the result is its last
    character. *)
Lemma join_head (a : string) :
  ∃ head, ∀ b,
    PyStr.free_of os_path.sep b = true →
    os_path.join a b = head +:+ b
    ∧ PyStr.rfind os_path.sep (os_path.join a b) = Z.of_nat (String.length head) - 1.
Proof.
  destruct (String.eqb a "") eqn:Ha.
  { apply String.eqb_eq in Ha. subst a. exists "". intros b Hb.
    unfold os_path.join. rewrite (free_of_startswith b Hb). simpl.
    split; [done|]. unfold PyStr.rfind. by rewrite rfind_from_free. }
  destruct (PyStr.endswith os_path.sep a) eqn:He.
  - exists a. intros b Hb. unfold os_path.join.
    rewrite (free_of_startswith b Hb), Ha, He. simpl. split; [done|].
    destruct (endswith_inv os_path.sep a He) as [a' ->].
    rewrite str_app_assoc. simpl. rewrite rfind_sep_tail by done.
    rewrite str_length_app_one. lia.
  - exists (a +:+ String os_path.sep ""). intros b Hb. unfold os_path.join.
    rewrite (free_of_startswith b Hb), Ha, He. simpl.
    split; [by rewrite str_app_assoc|].
    rewrite rfind_sep_tail by done. rewrite str_length_app_one. lia.
Qed.

(** [splitext] of a name put after a directory part. *)
Lemma splitext_after_head (head name : string) (k : nat) (a : ascii) :
  PyStr.rfind os_path.sep (head +:+ name) = Z.of_nat (String.length head) - 1 →
  (∀ i last, PyStr.rfind_from os_path.extsep name i last = i + Z.of_nat k) →
  (0 < k)%nat →
  PyStr.get 0 name = Some a → Ascii.eqb a os_path.extsep = false →
  os_path.splitext (head +:+ name) = (head +:+ PyStr.take k name, PyStr.drop k name).
Proof.
  intros Hsep Hdot Hk Hget Ha. unfold os_path.splitext. rewrite Hsep.
  assert (PyStr.rfind os_path.extsep (head +:+ name)
          = Z.of_nat (String.length head + k)) as ->.
  { unfold PyStr.rfind. rewrite rfind_from_app, Hdot. lia. }
  rewrite (proj2 (Z.ltb_lt _ _)) by lia.
  replace (Z.to_nat (Z.of_nat (String.length head) - 1 + 1))
    with (String.length head) by lia.
  replace (Z.to_nat (Z.of_nat (String.length head + k)
                     - (Z.of_nat (String.length head) - 1 + 1)))
    with k by lia.
  destruct k as [|k]; [lia|]. cbn [os_path.splitext_loop].
  rewrite str_get_app_length, Hget, Ha. cbn [negb andb].
  by rewrite Nat2Z.id, str_take_app_add, str_drop_app_add.
Qed.

(** X5.  For every launch, the output path is the input path with its
    extension replaced: the two paths are one stem followed by [.png] and
    by [.ico], [splitext] cuts both at that place, whatever dots the
    directory has in its name, and so the output is never written over
    the input. *)
Theorem X5_output_is_input_with_ico_extension (l : Launch) :
  ∃ stem,
    png_path l = stem +:+ ".png"
    ∧ ico_path l = stem +:+ ".ico"
    ∧ os_path.splitext (png_path l) = (stem, ".png")
    ∧ os_path.splitext (ico_path l) = (stem, ".ico")
    ∧ png_path l ≠ ico_path l.
Proof.
  unfold png_path, ico_path. rewrite ico_name. unfold file_name.
  destruct (join_head (current_dir l)) as [head Hhead].
  destruct (Hhead "logo.png" eq_refl) as [Hpng Hpsep].
  destruct (Hhead "logo.ico" eq_refl) as [Hico Hisep].
  rewrite Hpng, Hico in *.
  exists (head +:+ "logo"). split_and!.
  - by rewrite str_app_assoc.
  - by rewrite str_app_assoc.
  - apply (splitext_after_head head "logo.png" 4 "l"); try done; [|lia].
    intros i last. simpl. lia.
  - apply (splitext_after_head head "logo.ico" 4 "l"); try done; [|lia].
    intros i last. simpl. lia.
  - intros E. by apply str_app_inv_head in E.
Qed.

Section Normalized.

Import os_path.

(** A component of a normalized absolute path: not empty, not a dot, not
    two dots, and without separator. *)
Local Abbreviation clean :=
  (fun s : string => s ≠ "" ∧ s ≠ "." ∧ s ≠ ".." ∧ PyStr.free_of sep s = true).

Lemma split_free (s : string) :
  Forall (fun w => PyStr.free_of sep w = true) (PyStr.split sep s).
Proof.
  induction s as [|a s IH]; simpl.
  - by repeat constructor.
  - destruct (Ascii.eqb a sep) eqn:Ha.
    + by constructor.
    + destruct (PyStr.split sep s) as [|w ws]; simpl.
      * repeat constructor. simpl. by rewrite Ha.
      * inversion IH as [|? ? Hw Hws]; subst. constructor; [|done].
        simpl. by rewrite Ha, Hw.
Qed.

(** The loop of [normpath] on an absolute path keeps clean components
    only. *)
Lemma normpath_loop_clean (k : nat) (comps acc : list string) :
  k ≠ 0%nat →
  Forall (fun w => PyStr.free_of sep w = true) comps →
  Forall clean acc →
  Forall clean (normpath_loop k comps acc).
Proof.
  intros Hk. revert acc. induction comps as [|comp rest IH]; intros acc Hfree Hacc.
  - done.
  - inversion Hfree as [|? ? Hcomp Hrest]; subst. cbn [normpath_loop].
    destruct (String.eqb comp "") eqn:E1; [by apply IH|].
    destruct (String.eqb comp ".") eqn:E2; [by apply IH|].
    cbn [orb]. apply String.eqb_neq in E1, E2.
    replace (k =? 0)%nat with false by (symmetry; by apply Nat.eqb_neq).
    cbn [andb orb].
    destruct (String.eqb comp "..") eqn:E3; cbn [negb orb].
    + destruct acc as [|last acc'].
      * by apply IH.
      * inversion Hacc as [|? ? Hlast Hacc']; subst.
        destruct (String.eqb last "..") eqn:E4.
        { apply String.eqb_eq in E4. by destruct Hlast as (_ & _ & ? & _). }
        by apply IH.
    + apply String.eqb_neq in E3. apply IH; [done|]. by constructor.
Qed.

(** [normpath] of an absolute path: one or two slashes, then clean
    components with one slash between them. *)
Lemma normpath_abs_shape (p : string) :
  isabs p = true →
  ∃ (k : nat) (comps : list string),
    (k = 1 ∨ k = 2)%nat ∧ Forall clean comps
    ∧ normpath p = PyStr.repeat sep k +:+ PyStr.join "/" comps.
Proof.
  unfold isabs, normpath. intros Hp.
  destruct (String.eqb p "") eqn:E.
  { apply String.eqb_eq in E. by subst. }
  assert (∃ n, (n = 0 ∨ n = 1)%nat ∧ normpath_initial_slashes p = S n)
    as (n & Hn & ->).
  { unfold normpath_initial_slashes. rewrite Hp. destruct (_ && _); eauto. }
  exists (S n), (rev (normpath_loop (S n) (PyStr.split sep p) [])).
  split; [lia|]. split.
  - apply Forall_rev, normpath_loop_clean; [done | apply split_free | done].
  - cbn [PyStr.repeat]. rewrite str_app_cons. done.
Qed.

Lemma join_snoc (comps : list string) (x : string) :
  comps ≠ [] →
  PyStr.join "/" (comps ++ [x]) = PyStr.join "/" comps +:+ String sep x.
Proof.
  induction comps as [|w ws IH]; [done|]. intros _.
  destruct ws as [|w2 ws].
  - done.
  - change (PyStr.join "/" ((w :: w2 :: ws) ++ [x]))
      with (w +:+ "/" +:+ PyStr.join "/" ((w2 :: ws) ++ [x])).
    rewrite IH by done.
    change (PyStr.join "/" (w :: w2 :: ws))
      with (w +:+ "/" +:+ PyStr.join "/" (w2 :: ws)).
    by rewrite !str_app_assoc.
Qed.

Lemma endswith_app (c : ascii) (a b : string) :
  b ≠ "" → PyStr.endswith c (a +:+ b) = PyStr.endswith c b.
Proof.
  intros Hb. induction a as [|x a IH]; [done|]. simpl.
  destruct (a +:+ b) eqn:E; [|done].
  destruct a; simpl in E; [by subst | done].
Qed.

Lemma all_char_app (c : ascii) (a b : string) :
  PyStr.all_char c (a +:+ b) = PyStr.all_char c a && PyStr.all_char c b.
Proof. induction a as [|x a IH]; simpl; [done | by rewrite IH, andb_assoc]. Qed.

Lemma free_of_endswith (c : ascii) (s : string) :
  PyStr.free_of c s = true → PyStr.endswith c s = false.
Proof.
  induction s as [|a s IH]; [done|]. simpl.
  intros [Ha Hs]%andb_prop. apply negb_true_iff in Ha.
  destruct s; [done | by apply IH].
Qed.

Lemma free_of_all_char (c : ascii) (s : string) :
  s ≠ "" → PyStr.free_of c s = true → PyStr.all_char c s = false.
Proof.
  destruct s as [|a s]; [done|]. simpl.
  intros _ [Ha _]%andb_prop. apply negb_true_iff in Ha. by rewrite Ha.
Qed.

(** A non-empty list of clean components, joined, ends with a clean
    one. *)
Lemma join_clean_last (comps : list string) :
  comps ≠ [] → Forall clean comps →
  ∃ X last, PyStr.join "/" comps = X +:+ last
            ∧ last ≠ "" ∧ PyStr.free_of sep last = true.
Proof.
  intros Hne Hc.
  destruct (exists_last Hne) as (init & last & ->).
  apply Forall_app in Hc as [_ Hl].
  inversion Hl as [|? ? (H1 & _ & _ & H4) _]; subst.
  destruct init as [|w ws].
  - by exists "", last.
  - exists (PyStr.join "/" (w :: ws) +:+ "/"), last.
    rewrite join_snoc by done. by rewrite str_app_assoc.
Qed.

Lemma repeat_length (c : ascii) (n : nat) : String.length (PyStr.repeat c n) = n.
Proof. induction n as [|n IH]; simpl; [done | by rewrite IH]. Qed.

Lemma repeat_all_char (c : ascii) (n : nat) :
  PyStr.all_char c (PyStr.repeat c n) = true.
Proof. induction n as [|n IH]; simpl; [done | by rewrite Ascii.eqb_refl]. Qed.

Lemma repeat_snoc (c : ascii) (n : nat) (s : string) :
  PyStr.repeat c (S n) +:+ s = PyStr.repeat c n +:+ String c s.
Proof. induction n as [|n IH]; [done|]. simpl in *. by rewrite IH. Qed.

(** [dirname] of slashes followed by one name is the slashes. *)
Lemma dirname_root_name (n : nat) (name : string) :
  PyStr.free_of sep name = true →
  dirname (PyStr.repeat sep (S n) +:+ name) = PyStr.repeat sep (S n).
Proof.
  intros Hfree. unfold dirname. rewrite repeat_snoc.
  rewrite rfind_sep_tail by done. rewrite repeat_length.
  replace (Z.to_nat (Z.of_nat n + 1)) with (S n) by lia.
  rewrite <- repeat_snoc.
  assert (PyStr.take (S n) (PyStr.repeat sep (S n) +:+ name)
          = PyStr.repeat sep (S n)) as ->.
  { rewrite <- (repeat_length sep (S n)) at 1. apply str_take_app_length. }
  by rewrite repeat_all_char, andb_false_r.
Qed.

(** [dirname] of a normalized absolute path is one. *)
Lemma dirname_normal (k : nat) (comps : list string) :
  (0 < k)%nat → Forall clean comps →
  ∃ comps', Forall clean comps'
            ∧ dirname (PyStr.repeat sep k +:+ PyStr.join "/" comps)
              = PyStr.repeat sep k +:+ PyStr.join "/" comps'.
Proof.
  intros Hk Hc. destruct k as [|n]; [lia|].
  destruct comps as [|w ws] using rev_ind.
  { exists []. split; [done|]. cbn [PyStr.join].
    rewrite (dirname_root_name n "" eq_refl). by rewrite str_app_nil_r. }
  clear IHws. apply Forall_app in Hc as [Hinit Hlast].
  inversion Hlast as [|? ? (Hw1 & _ & _ & Hw4) _]; subst.
  destruct ws as [|v vs].
  - exists []. split; [done|]. cbn [app PyStr.join].
    rewrite (dirname_root_name n w Hw4). by rewrite str_app_nil_r.
  - exists (v :: vs). split; [done|].
    rewrite join_snoc by done. rewrite <- str_app_assoc.
    set (X := PyStr.repeat sep (S n) +:+ PyStr.join "/" (v :: vs)).
    destruct (join_clean_last (v :: vs) ltac:(done) Hinit)
      as (Y & last & Hj & Hl1 & Hl2).
    assert (PyStr.endswith sep X = false) as Hend.
    { unfold X. rewrite Hj, <- str_app_assoc, endswith_app by done.
      by apply free_of_endswith. }
    assert (PyStr.all_char sep X = false) as Hall.
    { unfold X. rewrite Hj, !all_char_app, (free_of_all_char sep last) by done.
      by rewrite !andb_false_r. }
    unfold dirname. rewrite rfind_sep_tail by done.
    replace (Z.to_nat (Z.of_nat (String.length X) + 1))
      with (S (String.length X)) by lia.
    rewrite <- (str_length_app_one X sep).
    replace (X +:+ String sep w) with ((X +:+ String sep "") +:+ w)
      by (by rewrite str_app_assoc).
    rewrite str_take_app_length, all_char_app_one, Hall, rstrip_app_one.
    rewrite (rstrip_id sep X Hend).
    destruct (String.eqb (X +:+ String sep "") "") eqn:E; [|done].
    apply String.eqb_eq in E. by destruct X.
Qed.

(** A name joined to a normalized absolute directory. *)
Lemma join_normal (k : nat) (comps : list string) (name : string) :
  (0 < k)%nat → Forall clean comps → PyStr.free_of sep name = true →
  join (PyStr.repeat sep k +:+ PyStr.join "/" comps) name
  = PyStr.repeat sep k +:+ PyStr.join "/" (comps ++ [name]).
Proof.
  intros Hk Hc Hname. destruct k as [|n]; [lia|].
  unfold join. rewrite (free_of_startswith name Hname).
  destruct comps as [|v vs].
  - cbn [app PyStr.join]. rewrite str_app_nil_r.
    replace (PyStr.endswith sep (PyStr.repeat sep (S n))) with true.
    + by rewrite orb_true_r.
    + symmetry. apply all_char_endswith; [apply repeat_all_char | done].
  - destruct (join_clean_last (v :: vs) ltac:(done) Hc)
      as (Y & last & Hj & Hl1 & Hl2).
    rewrite join_snoc by done.
    replace (PyStr.endswith sep (PyStr.repeat sep (S n) +:+ PyStr.join "/" (v :: vs)))
      with false.
    + cbn [PyStr.repeat]. rewrite str_app_cons. cbn [String.eqb orb].
      rewrite !str_app_cons. by rewrite str_app_assoc.
    + symmetry. rewrite Hj, <- str_app_assoc, endswith_app by done.
      by apply free_of_endswith.
Qed.

End Normalized.

(** X6.  The current directory of the process being absolute, the paths
    that the script builds are normalized: one or two slashes, then
    components that are not empty, not [.] and not [..] and hold no
    slash, with one slash between them, the last one being the file name.
    This holds however the script was named at launch, through doubled
    slashes or through [.] and [..]. *)
Theorem X6_paths_are_normalized (l : Launch) :
  os_path.isabs (getcwd l) = true →
  ∃ (k : nat) (comps : list string),
    (k = 1 ∨ k = 2)%nat
    ∧ Forall (fun s : string =>
                s ≠ "" ∧ s ≠ "." ∧ s ≠ ".."
                ∧ PyStr.free_of os_path.sep s = true) comps
    ∧ current_dir l = PyStr.repeat os_path.sep k +:+ PyStr.join "/" comps
    ∧ png_path l
      = PyStr.repeat os_path.sep k +:+ PyStr.join "/" (comps ++ ["logo.png"])
    ∧ ico_path l
      = PyStr.repeat os_path.sep k +:+ PyStr.join "/" (comps ++ ["logo.ico"]).
Proof.
  intros Hcwd.
  destruct (normpath_abs_shape
              (if os_path.isabs (script_file l) then script_file l
               else os_path.join (getcwd l) (script_file l)))
    as (k & comps0 & Hk & Hc0 & Hn).
  { destruct (os_path.isabs (script_file l)) eqn:Hf; [done | by apply isabs_join]. }
  destruct (dirname_normal k comps0 ltac:(lia) Hc0) as (comps & Hc & Hd).
  assert (current_dir l = PyStr.repeat os_path.sep k +:+ PyStr.join "/" comps)
    as Hdir.
  { unfold current_dir, os_path.abspath. by rewrite Hn, Hd. }
  exists k, comps. split_and!; try done.
  - unfold png_path, file_name. rewrite Hdir.
    apply join_normal; [lia | done | done].
  - unfold ico_path. rewrite ico_name, Hdir.
    apply join_normal; [lia | done | done].
Qed.

Lemma X6_paths_are_normalized_witness :
  ∃ (k : nat) (comps : list string),
    (k = 1 ∨ k = 2)%nat
    ∧ Forall (fun s : string =>
                s ≠ "" ∧ s ≠ "." ∧ s ≠ ".."
                ∧ PyStr.free_of os_path.sep s = true) comps
    ∧ current_dir {| script_file := "tools/..//app/./logo_coverter.py";
                     getcwd := "/home/u" |}
      = PyStr.repeat os_path.sep k +:+ PyStr.join "/" comps
    ∧ png_path {| script_file := "tools/..//app/./logo_coverter.py";
                  getcwd := "/home/u" |}
      = PyStr.repeat os_path.sep k +:+ PyStr.join "/" (comps ++ ["logo.png"])
    ∧ ico_path {| script_file := "tools/..//app/./logo_coverter.py";
                  getcwd := "/home/u" |}
      = PyStr.repeat os_path.sep k +:+ PyStr.join "/" (comps ++ ["logo.ico"]).
Proof.
  apply (X6_paths_are_normalized
           {| script_file := "tools/..//app/./logo_coverter.py";
              getcwd := "/home/u" |}).
  reflexivity.
Defined.
